(** * Moonsheep: task selection, manual verification, task trees and the
      POST normalizer of [moonsheep/views.py]

    A shallow embedding of the view layer of Moonsheep and the properties
    its design document states about it.

    Conventions of the embedding.
    - A database table is the list of its rows; the primary key of a task
      is the field [id].
    - [Task.priority] is a [DecimalField] with two decimal places: it is
      kept as the integer number of hundredths.
    - Python exceptions are values of [exn].  A view method is a function
      of the world (the tables, the flash messages, the log of the saving
      hooks) that returns the new world together with either the raised
      exception or the result.  A raised exception keeps the writes made
      before it: the views run without a surrounding transaction.
    - Field names and values are strings of ASCII characters.
    - [dpath] is a third-party library: [unpack_post] is written against
      the interface [Dpath], and [dpath_ref] is a reference model of the
      three functions it calls. *)

From Stdlib Require Import ZArith Lia Ascii String DecimalString DecimalZ.
From stdpp Require Import base option list sorting strings gmap.

Local Open Scope string_scope.
Local Open Scope list_scope.
Local Open Scope Z_scope.

(** ** Data model *)

(** [Task.state], with the choices of migration 0002. *)
Inductive TaskState := OPEN | DIRTY | CHECKED | MANUAL.

#[global] Instance TaskState_eq_dec : EqDecision TaskState.
Proof. solve_decision. Defined.

(** The canonical structured value an entry holds: what [unpack_post]
    returns and what a JSON field stores.  A Python [dict] keeps its keys
    in insertion order, hence the association list. *)
#[warnings="-register-all"]
Inductive value :=
| VNone
| VStr (s : string)
| VList (l : list value)
| VDict (d : list (string * value)).

Abbreviation dict := (list (string * value)).

Record Task := {
  id : Z;
  type : string;
  parent_id : option Z;
  doc_id : Z;
  state : TaskState;
  priority : Z;
  params : dict
}.

Record Entry := {
  task_id : Z;
  user : Z;
  data : dict;
  closed_manually : bool
}.

(** What a request can read and write: the two tables, the flash messages
    of [django.contrib.messages], and the log of the values handed to the
    task definition's saving hooks. *)
Record World := {
  tasks : list Task;
  entries : list Entry;
  messages : list string;
  saved : list (Z * dict)
}.

Inductive exn :=
| NoTasksLeft
| KeyError (what : string)
| IndexError (what : string)
| ValueError (what : string)
| AttributeError (what : string)
| TypeError (what : string)
| DoesNotExist
| TaskNotDirty
| FieldNameNotValid (k : string).

(** ** Computations that may raise *)

Definition Exc (A : Type) : Type := exn + A.

#[global] Instance Exc_ret : MRet Exc := λ A a, inr a.
#[global] Instance Exc_bind : MBind Exc := λ A B k m,
  match m with
  | inr a => k a
  | inl e => inl e
  end.

#[global] Instance Exc_fmap : FMap Exc := λ A B f m,
  match m with
  | inr a => inr (f a)
  | inl e => inl e
  end.

(** [[f(x) for x in l]], stopping at the first exception. *)
Fixpoint mapE {A B} (f : A → Exc B) (l : list A) : Exc (list B) :=
  match l with
  | [] => inr []
  | x :: l' =>
      match f x with
      | inl e => inl e
      | inr y => match mapE f l' with
                 | inl e => inl e
                 | inr ys => inr (y :: ys)
                 end
      end
  end.

(** [for x in l: s = body(x, s)], stopping at the first exception. *)
Fixpoint foldE {A S} (body : A → S → Exc S) (l : list A) (s : S) : Exc S :=
  match l with
  | [] => inr s
  | x :: l' =>
      match body x s with
      | inl e => inl e
      | inr s' => foldE body l' s'
      end
  end.

(** ** The monad of view methods *)

Definition M (A : Type) : Type := World → World * (exn + A).

Definition raise {A} (e : exn) : M A := λ w, (w, inl e).
Definition query {A} (f : World → A) : M A := λ w, (w, inr (f w)).

#[global] Instance M_ret : MRet M := λ A a w, (w, inr a).
#[global] Instance M_bind : MBind M := λ A B k m w,
  match m w with
  | (w', inr a) => k a w'
  | (w', inl e) => (w', inl e)
  end.

(** ** Python dictionaries *)

(** [d.get(k)] *)
Fixpoint dict_get {V} (k : string) (d : list (string * V)) : option V :=
  match d with
  | [] => None
  | (k', v) :: d' => if decide (k' = k) then Some v else dict_get k d'
  end.

(** [d[k] = v]: an existing key keeps its place, a new key goes last. *)
Fixpoint dict_set {V} (k : string) (v : V) (d : list (string * V)) : list (string * V) :=
  match d with
  | [] => [(k, v)]
  | (k', v') :: d' =>
      if decide (k' = k) then (k, v) :: d' else (k', v') :: dict_set k v d'
  end.

(** ** [QueryDict]: the fields of a POST body *)

(** Django fills [request.POST] from the [name=value] pairs of the body in
    their order, appending each value to the list kept for its name.  The
    body is kept as that sequence of pairs. *)
Abbreviation QueryDict := (list (string * string)).

(** [post.keys()]: every name once, in the order of first occurrence. *)
Fixpoint QueryDict_keys (post : QueryDict) : list string :=
  match post with
  | [] => []
  | (k, _) :: post' => k :: filter (λ k', k' ≠ k) (QueryDict_keys post')
  end.

(** [post.getlist(key)] *)
Definition getlist (post : QueryDict) (key : string) : list string :=
  (filter (λ p, p.1 = key) post).*2.

(** [key in post] *)
Definition contains (post : QueryDict) (key : string) : bool :=
  bool_decide (key ∈ post.*1).

(** ** Field names: the regular expression of [unpack_post] *)

Definition LF : ascii := "010"%char.

Definition code (c : ascii) : nat := nat_of_ascii c.

(** [\d] *)
Definition is_digit (c : ascii) : bool :=
  (48 <=? code c)%nat && (code c <=? 57)%nat.

(** [\w] *)
Definition is_word (c : ascii) : bool :=
  is_digit c
  || ((65 <=? code c)%nat && (code c <=? 90)%nat)
  || ((97 <=? code c)%nat && (code c <=? 122)%nat)
  || bool_decide (c = "_"%char).

(** The classes [[\w\-_]] and [[\d\w\-_]]: both are [\w] or a hyphen. *)
Definition is_name_char (c : ascii) : bool :=
  is_word c || bool_decide (c = "-"%char).

(** The longest prefix of [s] in the class [f], and what follows it: what a
    greedy [[...]*] consumes. *)
Fixpoint span (f : ascii → bool) (s : string) : string * string :=
  match s with
  | String c r =>
      if f c then let '(a, b) := span f r in (String c a, b) else ("", s)
  | EmptyString => ("", "")
  end.

(** [(\[[\d\w\-_]+\])*]: the bracketed selectors at the head of [s], and
    what follows them.  [fuel] bounds the number of selectors; the length
    of [s] is always enough. *)
Fixpoint selectors (fuel : nat) (s : string) : list string * string :=
  match fuel, s with
  | S fuel', String c r =>
      if decide (c = "["%char) then
        let '(idx, r') := span is_name_char r in
        match idx, r' with
        | String _ _, String c' r'' =>
            if decide (c' = "]"%char) then
              let '(l, rest) := selectors fuel' r'' in (idx :: l, rest)
            else ([], s)
        | _, _ => ([], s)
        end
      else ([], s)
  | _, _ => ([], s)
  end.

(** [(\[\])?] *)
Definition trailing_brackets (s : string) : bool * string :=
  match s with
  | String c (String c' r) =>
      if decide (c = "["%char ∧ c' = "]"%char) then (true, r) else (false, s)
  | _ => (false, s)
  end.

(** The match of [re.search] with the pattern of [unpack_post], which is,
    between [^] and [$], the group [object] (one or more of [[\w\-_]]), the
    group [selectors] (any number of bracketed runs of [[\d\w\-_]]) and the
    optional group [trailing_brackets] (an empty pair of brackets).  The
    result holds the three groups, the selectors already split as
    [re.finditer] yields them in the loop.  Python's [$] matches at the end
    of the string and also just before a line feed that ends it. *)
Definition field_name_match (k : string) : option (string * list string * bool) :=
  let '(object, r1) := span is_name_char k in
  if decide (object = "") then None
  else
    let '(sels, r2) := selectors (String.length r1) r1 in
    let '(trailing, r3) := trailing_brackets r2 in
    if decide (r3 = "" ∨ r3 = String LF "") then Some (object, sels, trailing)
    else None.

(** The path grammar in the words of the design document, 4.1: a name, then
    any number of bracketed keys, then optionally a pair of empty brackets.
    Names and keys are non-empty runs of the characters the pattern
    admits. *)
Definition is_name (s : string) : Prop :=
  s ≠ "" ∧ forallb is_name_char (list_ascii_of_string s) = true.

Fixpoint brackets (keys : list string) : string :=
  match keys with
  | [] => ""
  | k :: keys' => "[" +:+ k +:+ "]" +:+ brackets keys'
  end.

Definition render (name : string) (keys : list string) (trailing : bool) : string :=
  name +:+ brackets keys +:+ (if trailing then "[]" else "").

Definition path_grammar (k : string) : Prop :=
  ∃ name keys trailing,
    is_name name ∧ Forall is_name keys ∧ k = render name keys trailing.

(** [re.match(r'\d+', idx)]: a match at the start of [idx], so it asks for
    no more than a first character that is a digit. *)
Definition starts_with_digit (idx : string) : bool :=
  match idx with
  | String c _ => is_digit c
  | EmptyString => false
  end.

(** ** Python's [int] and [str] on the keys *)

(** The white space [int] skips around the digits of an ASCII string: the
    characters 9 to 13 and the space. *)
Definition is_space (c : ascii) : bool :=
  ((9 <=? code c)%nat && (code c <=? 13)%nat) || (code c =? 32)%nat.

Fixpoint drop_spaces (cs : list ascii) : list ascii :=
  match cs with
  | c :: r => if is_space c then drop_spaces r else cs
  | [] => []
  end.

(** [s.strip()] *)
Definition strip (cs : list ascii) : list ascii :=
  reverse (drop_spaces (reverse (drop_spaces cs))).

Definition digit_value (c : ascii) : Z := Z.of_nat (code c - 48).

(** Decimal digits, single underscores allowed between two digits. *)
Fixpoint int_digits (acc : Z) (after_digit : bool) (cs : list ascii) : option Z :=
  match cs with
  | [] => if after_digit then Some acc else None
  | c :: r =>
      if is_digit c then int_digits (10 * acc + digit_value c) true r
      else if bool_decide (c = "_"%char) && after_digit then int_digits acc false r
      else None
  end.

(** [int(s)], base 10: surrounding white space, a sign, then the digits. *)
Definition py_int (s : string) : Exc Z :=
  let cs := strip (list_ascii_of_string s) in
  let r :=
    match cs with
    | c :: ds =>
        if bool_decide (c = "-"%char) then Z.opp <$> int_digits 0 false ds
        else if bool_decide (c = "+"%char) then int_digits 0 false ds
        else int_digits 0 false cs
    | [] => None
    end in
  match r with
  | Some z => inr z
  | None => inl (ValueError ("invalid literal for int() with base 10: " +:+ s))
  end.

(** [str(n)] of an integer *)
Definition py_str (z : Z) : string := NilZero.string_of_int (Z.to_int z).

(** ** The library [dpath] *)

(** A path is written ["row/0/fld"] in the source.  The object name and the
    selectors of a field name contain no separator and are never empty, so
    such a string and the list of its segments determine each other; the
    list is kept. *)
Abbreviation path := (list string).

(** What [unpack_post] calls of [dpath.util]: [new(obj, path, value)],
    [get(obj, glob)] and [set(obj, glob, value)], each on the root
    dictionary.  [new] and [set] change the root in place; here they
    return it. *)
Class Dpath := {
  dpath_new : dict → path → value → Exc dict;
  dpath_get : dict → path → Exc value;
  dpath_set : dict → path → value → Exc dict;
  (** The library raises its own exceptions and built-in ones, never the
      [Exception("Field name not valid: ...")] of [unpack_post]. *)
  dpath_new_exn : ∀ result p a k, dpath_new result p a ≠ inl (FieldNameNotValid k);
  dpath_get_exn : ∀ result p k, dpath_get result p ≠ inl (FieldNameNotValid k);
  dpath_set_exn : ∀ result p a k, dpath_set result p a ≠ inl (FieldNameNotValid k)
}.

(** ** [unpack_post] *)

(** [convert_to_array_paths.add(path)]: a set, kept as the list of its
    elements in the order they were first added. *)
Definition set_add (p : path) (s : list path) : list path :=
  if bool_decide (p ∈ s) then s else (s ++ [p]).

(** Iterating over a [set] of strings follows their hashes, which change
    from one process to the next: [hash] ranks the paths. *)
Definition hash_le (hash : path → nat) (p q : path) : Prop :=
  (hash p ≤ hash q)%nat.

#[global] Instance hash_le_dec hash p q : Decision (hash_le hash p q).
Proof. unfold hash_le. apply _. Defined.

Definition set_iter (hash : path → nat) (s : list path) : list path :=
  merge_sort (hash_le hash) s.

(** The loop over the selectors of one field name: every level entered
    through a selector that starts with a digit is marked, and the path is
    extended by the selector. *)
Fixpoint walk_selectors (sels : list string) (p : path) (marked : list path)
  : path * list path :=
  match sels with
  | [] => (p, marked)
  | idx :: sels' =>
      walk_selectors sels' (p ++ [idx])
        (if starts_with_digit idx then set_add p marked else marked)
  end.

(** The levels a field name marks for conversion. *)
Definition marks_of (k : string) : list path :=
  match field_name_match k with
  | Some (object, sels, _) => (walk_selectors sels [object] []).2
  | None => []
  end.

(** The inner function [get_list_or_value]; [trailing] tells whether the
    group [trailing_brackets] of the match is set. *)
Definition get_list_or_value (post : QueryDict) (key : string) (trailing : bool) : value :=
  let val := getlist post key in
  match val with
  | [v] => if trailing then VList (VStr <$> val) else VStr v
  | _ => VList (VStr <$> val)
  end.

(** The body of the first loop, for the key [k]. *)
Definition insert_field `{Dpath} (post : QueryDict) (k : string)
    (st : dict * list path) : Exc (dict * list path) :=
  match field_name_match k with
  | None => inl (FieldNameNotValid k)
  | Some (object, sels, trailing) =>
      let '(p, marked) := walk_selectors sels [object] st.2 in
      result ← dpath_new st.1 p (get_list_or_value post k trailing);
      mret (result, marked)
  end.

(** [d.keys()] *)
Definition keys_of (d : value) : Exc (list string) :=
  match d with
  | VDict d => inr d.*1
  | _ => inl (AttributeError "object has no attribute 'keys'")
  end.

(** [d[k]] *)
Definition getitem (d : value) (k : string) : Exc value :=
  match d with
  | VDict d =>
      match dict_get k d with
      | Some v => inr v
      | None => inl (KeyError k)
      end
  | _ => inl (TypeError "indices must be integers")
  end.

(** The body of the second loop, for the marked path [path_to_d]. *)
Definition convert_to_array `{Dpath} (path_to_d : path) (result : dict) : Exc dict :=
  d ← dpath_get result path_to_d;
  ks ← keys_of d;
  numeric_keys ← mapE py_int ks;
  arr ← mapE (λ k_int, getitem d (py_str k_int)) (merge_sort Z.le numeric_keys);
  dpath_set result path_to_d (VList arr).

Definition unpack_post `{Dpath} (hash : path → nat) (post : QueryDict) : Exc dict :=
  st ← foldE (insert_field post) (QueryDict_keys post) ([], []);
  foldE convert_to_array (set_iter hash st.2) st.1.

(** ** A reference model of [dpath.util]

    The three functions as their documentation describes them, on the
    values [unpack_post] builds.  [new] sets the element at the end of the
    path, creating it and the dictionaries on the way when they do not
    exist; it cannot path into a string or into [None], and in a list it
    accepts only an index written in digits, padding the list with [None]
    up to it.  [get] returns the one element whose path matches and raises
    [KeyError] when none does; [set] replaces the elements whose path
    matches and changes nothing when none does.  A path of the object is
    matched segment by segment, the index of a list element being compared
    in its [str] form.  The releases of the library differ in the class of
    the exception they raise and in what [new] does on a path that crosses
    a list; the inputs on which this model is run below stay away from
    both. *)

(** [str.isdigit()] *)
Definition isdigit (s : string) : bool :=
  bool_decide (s ≠ "") && forallb is_digit (list_ascii_of_string s).

(** The position in [l] whose printed index is [seg]. *)
Definition list_index (seg : string) (l : list value) : option nat :=
  find (λ i, bool_decide (py_str (Z.of_nat i) = seg)) (seq 0 (length l)).

Fixpoint ref_get (v : value) (p : path) : option value :=
  match p with
  | [] => Some v
  | seg :: p' =>
      match v with
      | VDict d => v' ← dict_get seg d; ref_get v' p'
      | VList l => i ← list_index seg l; v' ← l !! i; ref_get v' p'
      | _ => None
      end
  end.

Fixpoint ref_set (v : value) (p : path) (a : value) : value :=
  match p with
  | [] => a
  | seg :: p' =>
      match v with
      | VDict d =>
          match dict_get seg d with
          | Some v' => VDict (dict_set seg (ref_set v' p' a) d)
          | None => v
          end
      | VList l =>
          match i ← list_index seg l; v' ← l !! i; Some (i, v') with
          | Some (i, v') => VList (<[i := ref_set v' p' a]> l)
          | None => v
          end
      | _ => v
      end
  end.

Fixpoint ref_new (v : value) (p : path) (a : value) : Exc value :=
  match p with
  | [] => inr a
  | seg :: p' =>
      match v with
      | VDict d =>
          v' ← ref_new (default (VDict []) (dict_get seg d)) p' a;
          mret (VDict (dict_set seg v' d))
      | VList l =>
          if isdigit seg then
            match py_int seg with
            | inr z =>
                let i := Z.to_nat z in
                let l' := (l ++ replicate (S i - length l) VNone) in
                v' ← ref_new (default VNone (l' !! i)) p' a;
                mret (VList (<[i := v']> l'))
            | inl e => inl e
            end
          else inl (TypeError "Can only create integer indexes in lists")
      | _ => inl (TypeError "Unable to path into elements of this type")
      end
  end.

Definition dict_of (v : value) : dict :=
  match v with
  | VDict d => d
  | _ => []
  end.

Lemma py_int_exn (s : string) (k : string) : py_int s ≠ inl (FieldNameNotValid k).
Proof. unfold py_int. by repeat case_match. Qed.

Lemma ref_new_exn (v : value) (p : path) (a : value) (k : string) :
  ref_new v p a ≠ inl (FieldNameNotValid k).
Proof.
  revert v. induction p as [|seg p IH]; intros v; simpl; [done|].
  destruct v as [| |l|d]; try done.
  - destruct (isdigit seg); [|done].
    destruct (py_int seg) as [e|z] eqn:Hz.
    + intros [= ->]. by apply py_int_exn in Hz.
    + unfold mbind, Exc_bind.
      destruct (ref_new _ p a) as [e|v'] eqn:Hnew; [|done].
      intros [= ->]. by apply IH in Hnew.
  - unfold mbind, Exc_bind.
    destruct (ref_new _ p a) as [e|v'] eqn:Hnew; [|done].
    intros [= ->]. by apply IH in Hnew.
Qed.

#[global, refine] Instance dpath_ref : Dpath := {|
  dpath_new result p a := dict_of <$> ref_new (VDict result) p a;
  dpath_get result p :=
    match ref_get (VDict result) p with
    | Some v => inr v
    | None => inl (KeyError (String.concat "/" p))
    end;
  dpath_set result p a := inr (dict_of (ref_set (VDict result) p a))
|}.
Proof.
  - intros result p a k. unfold fmap, Exc_fmap.
    destruct (ref_new _ p a) as [e|v] eqn:Hnew; [|done].
    intros [= ->]. by apply ref_new_exn in Hnew.
  - intros result p k. by destruct (ref_get _ p).
  - done.
Defined.

(** ** The task store *)

(** [Task.objects.get(pk=task_id)] *)
Definition Task_get (task_id : Z) : M Task :=
  λ w, match List.find (λ t, bool_decide (id t = task_id)) (tasks w) with
       | Some t => (w, inr t)
       | None => (w, inl DoesNotExist)
       end.

Definition with_state (s : TaskState) (t : Task) : Task :=
  {| id := id t; type := type t; parent_id := parent_id t; doc_id := doc_id t;
     state := s; priority := priority t; params := params t |}.

(** [task.state = s; task.save()] for the task of key [task_id]. *)
Definition Task_set_state (task_id : Z) (s : TaskState) : M unit :=
  λ w, ({| tasks := (λ t, if bool_decide (id t = task_id) then with_state s t else t)
                      <$> tasks w;
           entries := entries w; messages := messages w; saved := saved w |},
        inr ()).

(** [Entry(...).save()]: a new row of the entry table. *)
Definition Entry_save (e : Entry) : M unit :=
  λ w, ({| tasks := tasks w; entries := (entries w ++ [e]);
           messages := messages w; saved := saved w |},
        inr ()).

(** [messages.add_message(self.request, messages.SUCCESS, text)] *)
Definition add_message (text : string) : M unit :=
  λ w, ({| tasks := tasks w; entries := entries w;
           messages := (messages w ++ [text]); saved := saved w |},
        inr ()).

(** The saving hooks of the task definition, [save_verified_data] and
    [after_save]: application code, of which only the call is kept. *)
Definition save_hooks (task_id : Z) (d : dict) : M unit :=
  λ w, ({| tasks := tasks w; entries := entries w; messages := messages w;
           saved := (saved w ++ [(task_id, d)]) |},
        inr ()).

(** ** [TaskView] *)

Inductive Response :=
| HttpResponseRedirect (url : string)
| Rendered (template : string)
| ExceptionObject (e : exn).

Module TaskView.

(** [.exclude(entry__user=u)]: the tasks some entry of which was submitted
    by [u] are left out. *)
Definition has_entry_by (es : list Entry) (u : Z) (t : Task) : bool :=
  bool_decide (Exists (λ e, task_id e = id t ∧ user e = u) es).

(** [Task.objects.filter(state=Task.OPEN).exclude(entry__user=u)] *)
Definition open_not_entered (w : World) (u : Z) : list Task :=
  filter (λ t, state t = OPEN ∧ has_entry_by (entries w) u t = false) (tasks w).

(** The order of [order_by('-priority')]. *)
Definition priority_desc (a b : Task) : Prop := priority b ≤ priority a.

#[global] Instance priority_desc_dec a b : Decision (priority_desc a b).
Proof. unfold priority_desc. apply _. Defined.

(** [...order_by('-priority')[:20]]: the database returns the rows in some
    order that is descending in priority; merge sort gives one such order. *)
Definition top_tasks (w : World) (u : Z) : list Task :=
  take 20 (merge_sort priority_desc (open_not_entered w u)).

(** [random.choice(seq)] is [seq[i]] for an index [i] below [len(seq)]
    drawn by the generator; [r] is the number the generator supplies. *)
Definition random_choice {A} (r : nat) (l : list A) : option A :=
  l !! (r `mod` length l)%nat.

(** [choose_a_task]; [u] is [self.request.user]. *)
Definition choose_a_task (u : Z) (r : nat) : M Task :=
  tasks ← query (λ w, top_tasks w u);
  if bool_decide (tasks = []) then raise NoTasksLeft      (* [if not tasks] *)
  else match random_choice r tasks with
       | Some t => mret t
       | None => raise (IndexError "Cannot choose from an empty sequence")
       end.

(** [post].  After the two checks of the hidden fields it loads the task,
    validates its form and saves the entry (lines 82 to 101), through the
    task definition and its form, which are application code: [serve] stands
    for that remainder. *)
Definition post (serve : QueryDict → M Response) (POST : QueryDict) : M Response :=
  if negb (contains POST "_task_id") then
    raise (KeyError "Missing _task_id field. Include moonsheep_token template tag!")
  else if negb (contains POST "_task_type") then
    mret (ExceptionObject
            (KeyError "Missing _task_type field. Include moonsheep_token template tag!"))
  else serve POST.

End TaskView.

(** ** [AbstractTask] *)

Module AbstractTask.

(** Modelled from the spec: [AbstractTask.verified_manually] of
    moonsheep/tasks.py, which is not among the sources.  The design
    document, 4.4: the commit "transitions the task to checked, and invokes
    the same onVerified/save hooks as automatic agreement", and it "fails
    with TaskNotDirty if invoked on a task not in state dirty". *)
Definition verified_manually (task_id : Z) (e : Entry) : M unit :=
  t ← Task_get task_id;
  if bool_decide (state t = DIRTY) then
    Task_set_state task_id CHECKED;;
    save_hooks task_id (data e)
  else raise TaskNotDirty.

End AbstractTask.

(** ** [ManualVerificationView] *)

Module ManualVerificationView.

(** [_save_entry], which overrides that of [TaskView]; [u] is
    [self.request.user], and [verified_manually] the method of the task
    definition that [self.task_type] holds. *)
Definition _save_entry (verified_manually : Z → Entry → M unit)
    (u : Z) (task_id : Z) (data : dict) : M unit :=
  let e := {| task_id := task_id; user := u; data := data;
              closed_manually := true |} in
  Entry_save e;;
  verified_manually task_id e;;
  add_message "Thank you! We saved your entry as verified!".

(** [hash(value)]: strings and [None] have one, lists and dictionaries
    raise [TypeError]. *)
Definition hashable (v : value) : bool :=
  match v with
  | VNone | VStr _ => true
  | VList _ | VDict _ => false
  end.

(** Equality of two hashable values. *)
Definition scalar_eqb (a b : value) : bool :=
  match a, b with
  | VNone, VNone => true
  | VStr s, VStr s' => bool_decide (s = s')
  | _, _ => false
  end.

(** [values.add(value)] on a set, kept as the list of its elements. *)
Definition values_add (v : value) (values : list value) : Exc (list value) :=
  if hashable v then
    inr (if existsb (scalar_eqb v) values then values else (values ++ [v]))
  else inl (TypeError "unhashable type").

(** The body of the inner loop of [get_context_data], for one item of
    [e.data]. *)
Definition add_field (item : string * value)
    (fields : list (string * list value)) : Exc (list (string * list value)) :=
  let '(fld, v) := item in
  values ← values_add v (default [] (dict_get fld fields));
  mret (dict_set fld values fields).

(** The two loops of [get_context_data] over the entries and their fields;
    the last loop turns every set into a list, which it is already here.
    The result is [context['entries_data']]. *)
Definition entries_data (entries : list Entry) : Exc (list (string * list value)) :=
  foldE (λ e fields, foldE add_field (data e) fields) entries [].

(** [self.task_type.instance.entry_set.all()] *)
Definition entry_set (w : World) (pk : Z) : list Entry :=
  filter (λ e, task_id e = pk) (entries w).

(** [get_context_data] for the task of key [pk]: the context of [TaskView]
    with [entries_data] added; only the latter is kept. *)
Definition get_context_data (pk : Z) : M (list (string * list value)) :=
  λ w, (w, entries_data (entry_set w pk)).

End ManualVerificationView.

(** ** [DocumentListView] *)

Module DocumentListView.

(** A node of the progress tree is a Python dictionary with the keys
    [task] and [children].  The loop keeps every node it creates in the
    dictionary [nodes] and appends it to the [children] of its parent, so
    the same object is reached from both places and goes on receiving
    children afterwards.  The objects live in a heap, addressed by their
    position, and a list of children holds addresses. *)
Record node := {
  task : option Task;
  children : list nat
}.

Record tree_state := {
  heap : list node;
  nodes : gmap (option Z) nat
}.

(** [nodes = {None: {'children': []}}] *)
Definition initial : tree_state :=
  {| heap := [{| task := None; children := [] |}];
     nodes := {[ None := 0%nat ]} |}.

(** [node['children'].append(c)] *)
Definition append_child (c : nat) (n : node) : node :=
  {| task := task n; children := (children n ++ [c]) |}.

(** The body of the loop, for the task [t]. *)
Definition add_task (t : Task) (s : tree_state) : Exc tree_state :=
  let a := length (heap s) in
  let heap1 := (heap s ++ [{| task := Some t; children := [] |}]) in
  let nodes1 := <[Some (id t) := a]> (nodes s) in
  match nodes1 !! parent_id t with
  | Some p => inr {| heap := alter (append_child a) p heap1; nodes := nodes1 |}
  | None => inl (KeyError (from_option py_str "None" (parent_id t)))
  end.

(** The order of [order_by('id')]. *)
Definition id_le (a b : Task) : Prop := id a ≤ id b.

#[global] Instance id_le_dec a b : Decision (id_le a b).
Proof. unfold id_le. apply _. Defined.

(** [Task.objects.filter(doc_id=get_doc_details).order_by('id')] *)
Definition tasks_of_document (w : World) (get_doc_details : Z) : list Task :=
  merge_sort id_le (filter (λ t, doc_id t = get_doc_details) (tasks w)).

(** The part of [get_context_data] that builds [context['progress_tree']]:
    the heap of nodes and the dictionary [nodes], whose entry [None] is the
    root handed to the template. *)
Definition progress_tree (w : World) (get_doc_details : Z) : Exc tree_state :=
  foldE add_task (tasks_of_document w get_doc_details) initial.

(** The address of the node registered for a task key. *)
Definition node_of (s : tree_state) (key : option Z) : option nat := nodes s !! key.

(** The children of the node at address [a]. *)
Definition children_of (s : tree_state) (a : nat) : list nat :=
  default [] (children <$> heap s !! a).

(** The tasks of [ts] come parents first: the parent of the task at
    position [i] is the task at some earlier position. *)
Definition parents_first (ts : list Task) : Prop :=
  ∀ i t p, ts !! i = Some t → parent_id t = Some p →
    ∃ j t', (j < i)%nat ∧ ts !! j = Some t' ∧ id t' = p.

(** What the loop has built once it has gone through [ts]: the root at
    address 0 and the node of the [i]-th task at address [i + 1], each
    registered under its key and listed among the children of the node of
    its parent, every address but that of the root being listed once in
    all. *)
Definition linked (ts : list Task) (s : tree_state) : Prop :=
  length (heap s) = S (length ts)
  ∧ task <$> heap s !! 0%nat = Some None
  ∧ node_of s None = Some 0%nat
  ∧ (∀ i t, ts !! i = Some t →
       node_of s (Some (id t)) = Some (S i)
       ∧ task <$> heap s !! S i = Some (Some t)
       ∧ ∃ p, node_of s (parent_id t) = Some p ∧ S i ∈ children_of s p)
  ∧ concat (children <$> heap s) ≡ₚ seq 1 (length ts).

End DocumentListView.

(** ** Sample data *)

Definition task1 : Task :=
  {| id := 1; type := "app.FindTable"; parent_id := None; doc_id := 1;
     state := OPEN; priority := 50; params := [] |}.
Definition task2 : Task :=
  {| id := 2; type := "app.ReadRow"; parent_id := Some 1; doc_id := 1;
     state := OPEN; priority := 100; params := [] |}.
Definition task3 : Task :=
  {| id := 3; type := "app.ReadRow"; parent_id := Some 1; doc_id := 1;
     state := DIRTY; priority := 100; params := [] |}.
Definition entry_a : Entry :=
  {| task_id := 1; user := 7; data := [("total", VStr "12")];
     closed_manually := false |}.
Definition entry_b : Entry :=
  {| task_id := 3; user := 8; data := [("total", VStr "13")];
     closed_manually := false |}.
Definition demo_world : World :=
  {| tasks := [task1; task2; task3]; entries := [entry_a; entry_b];
     messages := []; saved := [] |}.

(** A document whose second task was created before its parent: task 4 is
    the child of task 5. *)
Definition task4 : Task :=
  {| id := 4; type := "app.ReadRow"; parent_id := Some 5; doc_id := 2;
     state := OPEN; priority := 100; params := [] |}.
Definition task5 : Task :=
  {| id := 5; type := "app.FindTable"; parent_id := None; doc_id := 2;
     state := OPEN; priority := 100; params := [] |}.
Definition child_first_world : World :=
  {| tasks := [task4; task5]; entries := []; messages := []; saved := [] |}.

(** ** Predicates used in the statements and proofs *)

(** [r] does not start with a character of the class [f]. *)
Definition stops (f : ascii → bool) (r : string) : Prop :=
  match r with
  | String c _ => f c = false
  | EmptyString => True
  end.

(** [rest] does not start with a selector. *)
Definition no_selector (rest : string) : Prop :=
  ∀ fuel, selectors fuel rest = ([], rest).

(** What may follow the match of the pattern: nothing, or one line feed. *)
Definition line_end (tail : string) : Prop := tail = "" ∨ tail = String LF "".




(** ** Serving a task: the remaining methods of [TaskView] *)

Module Serving.

(** The exceptions these methods add to those of [exn].  The three classes
    of [moonsheep.exceptions] that [views.py] imports are taken to be
    unrelated classes: no handler for one catches another. *)
Inductive view_exn :=
| Raised (e : exn)
| NotImplementedError (msg : string)
| PresenterNotDefined
| TaskMustSetTemplate (klass : string)
| ImproperlyConfigured (msg : string).

Definition VExc (A : Type) : Type := view_exn + A.

(** Code of the application and of its task definitions: it reads and
    writes the store and may raise. *)
Definition WM (A : Type) : Type := World → World * VExc A.

(** The model instance a task definition is created for: a row of the task
    table, or the unsaved [Task(type=..., id=..., params=...)] of the
    development mode. *)
Inductive task_row :=
| Stored (t : Task)
| Mocked (type id : string) (params : dict).

(** A form class, by what the view asks of it: whether the posted data
    validates, and then its [cleaned_data]. *)
Abbreviation Form := (QueryDict → option dict).

(** An instance of a task definition ([AbstractTask], of moonsheep/tasks.py,
    which is application-facing code outside this file), by what the view
    asks of it.  [template_name] is [None] when the object has no such
    attribute, and [Some None] when the attribute holds [None]. *)
Record TaskObject := {
  instance : task_row;
  class_name : string;
  task_template_name : option (option string);
  task_form : option Form;
  get_presenter : VExc dict;
  verify_and_save : string → WM unit;
  save_verified_data : dict → WM unit;
  after_save : dict → WM unit
}.

(** A task class, as [klass_from_name] returns it: [mocked_params] is
    [None] when the class has no such attribute, otherwise what reading the
    class property gives. *)
Record Klass := {
  mocked_params : option (VExc dict)
}.

(** The attributes of the view object that [views.py] reads and writes. *)
Record View := {
  task_type : option TaskObject;
  template_name : option string;
  form_class : option Form;
  error_message : option string;
  error_template : option string
}.

Inductive ctx_value :=
| CNone
| CBool (b : bool)
| CStr (s : string)
| CTask (t : TaskObject)
| CPresenter (p : dict)
| COther (repr : string).

Abbreviation context := (list (string * ctx_value)).

Inductive response :=
| Redirect (url : string)
| TemplateResponse (template : string) (ctx : context)
| Returned (e : exn).

(** What surrounds the view: the settings, the registry of task types, the
    task definitions and the framework. *)
Record App := {
  DEV_ROTATE_TASKS : bool;                    (* MOONSHEEP['DEV_ROTATE_TASKS'] *)
  TASK_TYPES : list string;                   (* registry.TASK_TYPES *)
  klass_from_name : string → VExc Klass;
  create_task_instance : task_row → VExc TaskObject;
  super_get_context_data : View → VExc context;
  get_success_url : World → VExc string;
  reverse : string → VExc string;
  (** The default of the field [Entry.closed_manually], which the entry
      model declares. *)
  closed_manually_default : bool
}.

(** The class attributes of [TaskView], which a new view object shows. *)
Definition new_view : View :=
  {| task_type := None; template_name := None; form_class := None;
     error_message := None; error_template := None |}.

(** The state a request runs in: the store, the class attribute
    [TaskView.__mocked_task_counter], and the view object. *)
Record St := {
  world : World;
  mocked_task_counter : nat;
  self : View
}.

Definition VM (A : Type) : Type := St → St * VExc A.

#[global] Instance VM_ret : MRet VM := λ A a s, (s, inr a).
#[global] Instance VM_bind : MBind VM := λ A B k m s,
  match m s with
  | (s', inr a) => k a s'
  | (s', inl e) => (s', inl e)
  end.

Definition vraise {A} (e : view_exn) : VM A := λ s, (s, inl e).
Definition pure {A} (r : VExc A) : VM A := λ s, (s, r).

Definition with_world (w : World) (s : St) : St :=
  {| world := w; mocked_task_counter := mocked_task_counter s; self := self s |}.

Definition with_self (v : View) (s : St) : St :=
  {| world := world s; mocked_task_counter := mocked_task_counter s; self := v |}.

Definition lift {A} (m : M A) : VM A := λ s,
  match m (world s) with
  | (w, inr a) => (with_world w s, inr a)
  | (w, inl e) => (with_world w s, inl (Raised e))
  end.

Definition liftW {A} (m : WM A) : VM A := λ s,
  let '(w, r) := m (world s) in (with_world w s, r).

Definition get_self : VM View := λ s, (s, inr (self s)).
Definition modify_self (f : View → View) : VM unit :=
  λ s, (with_self (f (self s)) s, inr ()).

Definition set_task_type (t : option TaskObject) (v : View) : View :=
  {| task_type := t; template_name := template_name v;
     form_class := form_class v; error_message := error_message v;
     error_template := error_template v |}.

Definition set_template_name (n : option string) (v : View) : View :=
  {| task_type := task_type v; template_name := n;
     form_class := form_class v; error_message := error_message v;
     error_template := error_template v |}.

Definition set_form_class (f : option Form) (v : View) : View :=
  {| task_type := task_type v; template_name := template_name v;
     form_class := f; error_message := error_message v;
     error_template := error_template v |}.

(** The four assignments of a handler of [get]. *)
Definition set_error (message template : string) (v : View) : View :=
  {| task_type := None; template_name := Some template;
     form_class := form_class v; error_message := Some message;
     error_template := Some template |}.

(** Lines 207 to 223 of [get_random_mocked_task_data]: the task object for
    a task type.  [hasattr] is false when reading the attribute raises
    [AttributeError]; a [TypeError] is caught by the [try]; anything else
    propagates. *)
Definition mocked_task (app : App) (task_type : string) : VExc TaskObject :=
  match klass_from_name app task_type with
  | inl e => inl e
  | inr task_class =>
      match mocked_params task_class with
      | Some (inr params) =>
          create_task_instance app (Mocked task_type task_type params)
      | None
      | Some (inl (Raised (AttributeError _)))
      | Some (inl (Raised (TypeError _))) =>
          inl (NotImplementedError
                 ("Task " +:+ task_type +:+
                  " should define '@classproperty def mocked_params(cls) -> dict:'"))
      | Some (inl e) => inl e
      end
  end.

(** The counter after [+= 1] and the reset of lines 202 to 204. *)
Definition next_counter (n c : nat) : nat :=
  if bool_decide (n ≤ S c)%nat then 0%nat else S c.

(** [get_random_mocked_task_data]; [GET_task_type] is
    [self.request.GET.get('task_type', None)]. *)
Definition get_random_mocked_task_data (app : App)
    (GET_task_type task_type : option string) : VM TaskObject :=
  λ s,
  let task_type :=
    match task_type with Some t => Some t | None => GET_task_type end in
  match task_type with
  | Some t => (s, mocked_task app t)
  | None =>
      let defined_tasks := TASK_TYPES app in
      if bool_decide (defined_tasks = []) then
        (s, inl (NotImplementedError
                   ("You haven't defined any tasks or forgot to add in urls.py"
                    +:+ " folllowing line: from .tasks import *"
                    +:+ "# Keep it to make Moonsheep aware of defined tasks")))
      else
        let c := next_counter (length defined_tasks) (mocked_task_counter s) in
        let s' := {| world := world s; mocked_task_counter := c;
                     self := self s |} in
        match defined_tasks !! c with
        | Some t => (s', mocked_task app t)
        | None => (s', inl (Raised (IndexError "list index out of range")))
        end
  end.

Definition with_counter (c : nat) (s : St) : St :=
  {| world := world s; mocked_task_counter := c; self := self s |}.

(** [k] successive calls of [f], each from the state the one before it
    left; the results in the order of the calls. *)
Fixpoint successive {T A} (f : T → T * A) (k : nat) (s : T) : list A * T :=
  match k with
  | O => ([], s)
  | S k' =>
      let '(s1, a) := f s in
      let '(l, s2) := successive f k' s1 in
      (a :: l, s2)
  end.

(** [Task.objects.get(pk=task_id)] for the text of a key: the field
    converts its argument with [int]. *)
Definition Task_get_pk (task_id : string) : M Task :=
  λ w, match py_int task_id with
       | inl e => (w, inl e)
       | inr pk => Task_get pk w
       end.

(** [_get_task]; [u] is [self.request.user] and [r] the number the random
    generator supplies. *)
Definition _get_task (app : App) (GET_task_type : option string)
    (u : Z) (r : nat) (task_id : option string) : VM TaskObject :=
  if DEV_ROTATE_TASKS app then
    get_random_mocked_task_data app GET_task_type task_id
  else
    task ← match task_id with
           | Some task_id => lift (Task_get_pk task_id)
           | None => lift (TaskView.choose_a_task u r)
           end;
    pure (create_task_instance app (Stored task)).

(** [not s] for a string or [None]. *)
Definition falsy (s : option string) : bool :=
  match s with
  | None | Some "" => true
  | Some _ => false
  end.

(** [configure_template_and_form] *)
Definition configure_template_and_form : VM unit :=
  v ← get_self;
  match task_type v with
  | Some {| task_template_name := Some n |} => modify_self (set_template_name n)
  | _ => mret ()
  end;;
  v ← get_self;
  if falsy (template_name v) then
    vraise (TaskMustSetTemplate
              (from_option class_name "NoneType" (task_type v)))
  else
    modify_self (set_form_class (task_type v ≫= task_form)).

(** [context.update(items)] *)
Definition update {V} (items d : list (string * V)) : list (string * V) :=
  foldl (λ d kv, dict_set kv.1 kv.2 d) d items.

Definition opt_str (s : option string) : ctx_value :=
  from_option CStr CNone s.

(** [get_context_data].  A task object is taken to be true, as an object
    is that defines neither [__bool__] nor [__len__]. *)
Definition get_context_data (app : App) : VM context :=
  v ← get_self;
  context ← pure (super_get_context_data app v);
  let context := update [("project_id", CStr "fake it")] context in
  match task_type v with
  | Some t =>
      let context := dict_set "task" (CTask t) context in
      match get_presenter t with
      | inr p => mret (dict_set "presenter" (CPresenter p) context)
      | inl (Raised (TypeError _)) => vraise PresenterNotDefined
      | inl e => vraise e
      end
  | None =>
      mret (update [("error", CBool true);
                    ("message", opt_str (error_message v));
                    ("template", opt_str (error_template v))] context)
  end.

(** [render_to_response], of the framework: the template is
    [self.template_name], which has to be set. *)
Definition render_to_response (ctx : context) : VM response :=
  v ← get_self;
  match template_name v with
  | Some t => mret (TemplateResponse t ctx)
  | None => vraise (ImproperlyConfigured "TemplateResponseMixin requires a template_name")
  end.

(** The body of the [try] statement of [get]. *)
Definition get_try (app : App) (GET_task_type : option string)
    (u : Z) (r : nat) : VM unit :=
  t ← _get_task app GET_task_type u r None;
  modify_self (set_task_type (Some t));;
  configure_template_and_form.

(** [get] *)
Definition get (app : App) (GET_task_type : option string)
    (u : Z) (r : nat) : VM response :=
  λ s,
  let finish : VM response :=
    ctx ← get_context_data app; render_to_response ctx in
  match get_try app GET_task_type u r s with
  | (s1, inr ()) => finish s1
  | (s1, inl (Raised NoTasksLeft)) =>
      finish (with_self (set_error "Task Chooser returned no tasks"
                           "error-messages/no-tasks.html" (self s1)) s1)
  | (s1, inl PresenterNotDefined) =>
      finish (with_self (set_error "Presenter not defined"
                           "error-messages/presenter-not-defined.html"
                           (self s1)) s1)
  | (s1, inl e) => (s1, inl e)
  end.

(** [request.POST[key]]: the last of the values of [key]. *)
Definition QueryDict_getitem (post : QueryDict) (key : string) : Exc string :=
  match last (getlist post key) with
  | Some v => inr v
  | None => inl (KeyError key)
  end.

Definition raised {A} (r : Exc A) : VM A := λ s,
  match r with
  | inr a => (s, inr a)
  | inl e => (s, inl (Raised e))
  end.

(** A call of a method of [self.task_type]. *)
Definition task_method {A} (name : string) (f : TaskObject → WM A) : VM A :=
  v ← get_self;
  match task_type v with
  | Some t => liftW (f t)
  | None =>
      vraise (Raised (AttributeError
                ("'NoneType' object has no attribute '" +:+ name +:+ "'")))
  end.

Definition dquote : string := String "034"%char "".

(** The text of the message of [_save_entry], untranslated. *)
Definition thank_you (url : string) : string :=
  "Thank you! Are you ready for a next task? Or "
  +:+ "<a class=" +:+ dquote +:+ "finish-transcription" +:+ dquote
  +:+ " href=" +:+ dquote +:+ url +:+ dquote +:+ ">"
  +:+ "take a pause?" +:+ "</a>".

(** [_save_entry]; the key of the task arrives as the text of the hidden
    field, which the entry model converts with [int] when it is saved. *)
Definition _save_entry (app : App) (u : Z) (task_id : string) (data : dict)
  : VM unit :=
  if DEV_ROTATE_TASKS app then
    task_method "save_verified_data" (λ t, save_verified_data t data);;
    task_method "after_save" (λ t, after_save t data)
  else
    pk ← raised (py_int task_id);
    lift (Entry_save {| task_id := pk; user := u; data := data;
                        closed_manually := closed_manually_default app |});;
    task_method "verify_and_save" (λ t, verify_and_save t task_id);;
    url ← pure (reverse app "finish-transcription");
    lift (add_message (thank_you url)).

(** [HttpResponseRedirect(self.get_success_url())] *)
Definition redirect_to_success_url (app : App) : VM response :=
  url ← (λ s, (s, get_success_url app (world s)));
  mret (Redirect url).

(** [post], with the request data [POST]. *)
Definition post `{Dpath} (app : App) (hash : path → nat)
    (GET_task_type : option string) (u : Z) (r : nat) (POST : QueryDict)
  : VM response :=
  if negb (contains POST "_task_id") then
    vraise (Raised (KeyError
      "Missing _task_id field. Include moonsheep_token template tag!"))
  else if negb (contains POST "_task_type") then
    mret (Returned (KeyError
      "Missing _task_type field. Include moonsheep_token template tag!"))
  else
    task_id ← raised (QueryDict_getitem POST "_task_id");
    t ← _get_task app GET_task_type u r (Some task_id);
    modify_self (set_task_type (Some t));;
    configure_template_and_form;;
    v ← get_self;
    match task_type v ≫= task_form with
    | None =>
        data ← raised (unpack_post hash POST);
        _save_entry app u task_id data;;
        redirect_to_success_url app
    | Some form =>
        match form POST with
        | Some cleaned_data =>
            _save_entry app u task_id cleaned_data;;
            redirect_to_success_url app
        | None =>
            ctx ← get_context_data app; render_to_response ctx
        end
    end.

End Serving.

(** ** A sample application *)

Definition no_hook : Serving.WM unit := λ w, (w, inr ()).

(** A task definition with a template and a presenter, and no form. *)
Definition read_row_task (row : Serving.task_row) : Serving.TaskObject :=
  {| Serving.instance := row;
     Serving.class_name := "ReadRow";
     Serving.task_template_name := Some (Some "tasks/read_row.html");
     Serving.task_form := None;
     Serving.get_presenter := inr [("url", VStr "http://example.com/doc.pdf")];
     Serving.verify_and_save := λ _, no_hook;
     Serving.save_verified_data := λ _, no_hook;
     Serving.after_save := λ _, no_hook |}.

(** A task definition whose presenter cannot be read. *)
Definition find_table_task (row : Serving.task_row) : Serving.TaskObject :=
  {| Serving.instance := row;
     Serving.class_name := "FindTable";
     Serving.task_template_name := Some (Some "tasks/find_table.html");
     Serving.task_form := None;
     Serving.get_presenter :=
       inl (Serving.Raised (TypeError "'NoneType' object is not subscriptable"));
     Serving.verify_and_save := λ _, no_hook;
     Serving.save_verified_data := λ _, no_hook;
     Serving.after_save := λ _, no_hook |}.

Definition row_type (row : Serving.task_row) : string :=
  match row with
  | Serving.Stored t => type t
  | Serving.Mocked type _ _ => type
  end.

Definition demo_app : Serving.App :=
  {| Serving.DEV_ROTATE_TASKS := false;
     Serving.TASK_TYPES := ["app.FindTable"; "app.ReadRow"; "app.Legacy"];
     Serving.klass_from_name := λ n,
       inr {| Serving.mocked_params :=
                if decide (n = "app.Legacy") then None else Some (inr []) |};
     Serving.create_task_instance := λ row,
       inr (if decide (row_type row = "app.FindTable")
            then find_table_task row else read_row_task row);
     Serving.super_get_context_data := λ _, inr [("view", Serving.COther "TaskView")];
     Serving.get_success_url := λ _, inr "/task/";
     Serving.reverse := λ name, inr ("/" +:+ name +:+ "/");
     Serving.closed_manually_default := false |}.

Definition demo_state : Serving.St :=
  {| Serving.world := demo_world; Serving.mocked_task_counter := 0;
     Serving.self := Serving.new_view |}.

(** A store in which the user 7 has entered the only open task. *)
Definition quiet_state : Serving.St :=
  {| Serving.world :=
       {| tasks := [task1; task3]; entries := [entry_a; entry_b];
          messages := []; saved := [] |};
     Serving.mocked_task_counter := 0;
     Serving.self := Serving.new_view |}.

Definition demo_post : QueryDict :=
  [("_task_id", "2"); ("_task_type", "app.ReadRow");
   ("row[0][name]", "Anna"); ("row[1][name]", "Jan")].

Definition bad_post : QueryDict :=
  [("_task_id", "2"); ("_task_type", "app.ReadRow"); ("row[", "Anna")].

(** The page the user 7 gets in the sample store. *)
Definition demo_response : Serving.response :=
  Serving.TemplateResponse "tasks/read_row.html"
    [("view", Serving.COther "TaskView");
     ("project_id", Serving.CStr "fake it");
     ("task", Serving.CTask (read_row_task (Serving.Stored task2)));
     ("presenter", Serving.CPresenter [("url", VStr "http://example.com/doc.pdf")])].

(** ** The address of the user, and the template filter [task_name] *)

(** [s.split(sep)] for a separator of one character: the pieces between
    the occurrences of [sep], of which there is always at least one. *)
Fixpoint split_on (sep : ascii) (s : string) : list string :=
  match s with
  | "" => [""]
  | String c s' =>
      if decide (c = sep) then "" :: split_on sep s'
      else match split_on sep s' with
           | piece :: pieces => String c piece :: pieces
           | [] => [String c ""]
           end
  end.





(** The filter [task_name] of templatetags/moonsheep.py:
    [value.split('.').pop()]. *)
Definition task_name (value : string) : string :=
  default "" (last (split_on "." value)).

(** ** Arrays of scalars *)

(** The fields a form submits for an array of scalars: one field
    [name[i]] per index and value. *)
Definition indexed_fields (name : string) (items : list (Z * string)) : QueryDict :=
  (λ it, (render name [py_str it.1] false, it.2)) <$> items.

(** The fields a form submits for an array of records: the fields
    [name[i][fld]] of one record after those of another. *)
Definition record_fields (name : string)
    (records : list (Z * list (string * string))) : QueryDict :=
  records ≫= λ rec,
    (λ fv, (render name [py_str rec.1; fv.1] false, fv.2)) <$> rec.2.

(** A record that such a form can submit: a non-negative index and at
    least one field, the fields named differently, by names of the path
    grammar that do not start with a digit. *)
Definition record_ok (rec : Z * list (string * string)) : Prop :=
  0 ≤ rec.1 ∧ rec.2 ≠ [] ∧ NoDup rec.2.*1
  ∧ Forall (λ fv, is_name fv.1 ∧ starts_with_digit fv.1 = false) rec.2.

(** The order of the indices, on indexed things. *)
Definition index_le {A} (a b : Z * A) : Prop := a.1 ≤ b.1.

#[global] Instance index_le_dec {A} (a b : Z * A) : Decision (index_le a b).
Proof. unfold index_le. apply _. Defined.

(** * Properties *)

(** ** Running computations *)

Lemma foldE_app {A S} (body : A → S → Exc S) (l1 l2 : list A) (s : S) :
  foldE body (l1 ++ l2) s =
  match foldE body l1 s with
  | inl e => inl e
  | inr s' => foldE body l2 s'
  end.
Proof.
  revert s. induction l1 as [|x l1 IH]; intros s; simpl; [done|].
  destruct (body x s); [done|]. apply IH.
Qed.

Lemma mapE_inr {A B} (f : A → Exc B) (l : list A) (ys : list B) :
  mapE f l = inr ys ↔ Forall2 (λ x y, f x = inr y) l ys.
Proof.
  revert ys. induction l as [|x l IH]; intros ys; simpl.
  - split; [intros [= <-]; constructor | by inversion 1].
  - destruct (f x) as [e|y] eqn:Hx.
    + split; [done|]. inversion 1; congruence.
    + destruct (mapE f l) as [e|ys'] eqn:Hl.
      * split; [done|]. inversion 1; subst.
        assert (inl e = inr l') as Hbad by (by apply IH). done.
      * split.
        -- intros [= <-]. constructor; [done|]. by apply IH.
        -- inversion 1; subst. f_equal.
           assert (y0 = y) as -> by congruence. f_equal.
           assert (inr ys' = inr l') as Heq by (by apply IH). congruence.
Qed.


(** ** Selection: what [choose_a_task] returns *)

#[global] Instance priority_desc_total : Total TaskView.priority_desc.
Proof. intros a b. unfold TaskView.priority_desc. lia. Qed.

#[global] Instance priority_desc_trans : Transitive TaskView.priority_desc.
Proof. intros a b c. unfold TaskView.priority_desc. lia. Qed.



Lemma top_tasks_nil (w : World) (u : Z) :
  TaskView.top_tasks w u = [] ↔ TaskView.open_not_entered w u = [].
Proof.
  unfold TaskView.top_tasks. split.
  - intros Hnil. apply Permutation_nil_r.
    rewrite <-(merge_sort_Permutation TaskView.priority_desc).
    destruct (merge_sort _ _); [done | discriminate].
  - intros ->. reflexivity.
Qed.

Lemma random_choice_None {A} (r : nat) (l : list A) :
  TaskView.random_choice r l = None ↔ l = [].
Proof.
  unfold TaskView.random_choice. split.
  - intros Hnone. destruct l as [|a l]; [done|].
    apply lookup_ge_None in Hnone.
    pose proof (Nat.mod_upper_bound r (length (a :: l))) as Hlt.
    simpl in *. lia.
  - intros ->. reflexivity.
Qed.

Lemma filter_none {A} (P : A → Prop) `{∀ x, Decision (P x)} (l : list A) :
  Forall (λ x, ¬ P x) l → filter P l = [].
Proof.
  induction 1 as [|x l Hx _ IH]; [done|].
  by rewrite filter_cons_False.
Qed.




(** C2.  [choose_a_task] raises [NoTasksLeft] exactly when no open task is
    left that the identity has not entered; it raises nothing else, and it
    leaves the world as it was, also when it fails. *)
Theorem choose_a_task_NoTasksLeft_iff (w : World) (u : Z) (r : nat) :
  ((TaskView.choose_a_task u r w).2 = inl NoTasksLeft
   ↔ TaskView.open_not_entered w u = [])
  ∧ (∀ e, (TaskView.choose_a_task u r w).2 = inl e → e = NoTasksLeft)
  ∧ (TaskView.choose_a_task u r w).1 = w.
Proof.
  unfold TaskView.choose_a_task, mbind, M_bind, query.
  case_bool_decide as Hnil.
  - apply top_tasks_nil in Hnil. cbn. split_and!; [done| congruence |done].
  - destruct (TaskView.random_choice r (TaskView.top_tasks w u)) as [t|] eqn:Hch.
    + cbn. split_and!; [|congruence|done].
      rewrite <-top_tasks_nil. split; [discriminate|done].
    + apply random_choice_None in Hch. done.
Qed.

(** ** Manual verification: committing the moderator's decision *)

(** Whatever the task definition does in [verified_manually], the entry is
    in the table before it runs. *)
Lemma manual_save_entry_saves_first
    (h : Z → Entry → M unit) (u task_id : Z) (d : dict) (w : World) :
  let e := {| task_id := task_id; user := u; data := d;
              closed_manually := true |} in
  ManualVerificationView._save_entry h u task_id d w =
  (h task_id e;; add_message "Thank you! We saved your entry as verified!")
    {| tasks := tasks w; entries := entries w ++ [e];
       messages := messages w; saved := saved w |}.
Proof. reflexivity. Qed.

Lemma Task_get_inr (pk : Z) (w : World) (t : Task) :
  (Task_get pk w).2 = inr t → t ∈ tasks w ∧ id t = pk.
Proof.
  unfold Task_get.
  destruct (List.find _ (tasks w)) as [t'|] eqn:Hfind; [|discriminate].
  intros [= ->]. apply find_some in Hfind as [Hin Hid].
  apply bool_decide_eq_true in Hid. by rewrite <-list_elem_of_In in Hin.
Qed.

(** C3, as amended.  [_save_entry] of the manual verification view adds an
    entry with [closed_manually = True] that holds the chosen data, for a
    task in any state, and only then hands the task to [verified_manually].
    On a dirty task the commit succeeds and every stored task of that id is
    [CHECKED] afterwards; on a task in another state the hook raises
    [TaskNotDirty] and the task table is unchanged, the new entry staying
    in the entry table. *)
Theorem manual_save_entry_commit (w : World) (u pk : Z) (d : dict) :
  let e := {| task_id := pk; user := u; data := d; closed_manually := true |} in
  let r := ManualVerificationView._save_entry
             AbstractTask.verified_manually u pk d w in
  entries r.1 = entries w ++ [e]
  ∧ (∀ t, (Task_get pk w).2 = inr t → state t = DIRTY →
       r.2 = inr ()
       ∧ (∀ t', t' ∈ tasks r.1 → id t' = pk → state t' = CHECKED)
       ∧ saved r.1 = saved w ++ [(pk, d)])
  ∧ (∀ t, (Task_get pk w).2 = inr t → state t ≠ DIRTY →
       r.2 = inl TaskNotDirty ∧ tasks r.1 = tasks w).
Proof.
  intros e r. subst r.
  unfold ManualVerificationView._save_entry, AbstractTask.verified_manually.
  unfold mbind, M_bind, Entry_save, Task_get. cbn.
  destruct (List.find _ (tasks w)) as [t0|] eqn:Hfind; cbn.
  - case_bool_decide as Hst; cbn.
    + split_and!; [done| |].
      * intros t [= <-] _. split_and!; [done| |done].
        intros t' Hin Hid. apply list_elem_of_fmap in Hin as (t1 & -> & _).
        case_bool_decide; [done|]. done.
      * intros t [= <-] Hne. done.
    + split_and!; [done| |].
      * intros t [= <-] Hd. done.
      * intros t [= <-] _. done.
  - split_and!; [done| |]; intros t [=].
Qed.

(** Against C3 as the design document has it: committing a decision on the
    open task 1 raises [TaskNotDirty], and the entry has been created all
    the same. *)
Lemma manual_save_entry_not_dirty_creates_entry :
  let r := ManualVerificationView._save_entry
             AbstractTask.verified_manually 9 1 [("total", VStr "12")] demo_world in
  (Task_get 1 demo_world).2 = inr task1
  ∧ state task1 = OPEN
  ∧ r.2 = inl TaskNotDirty
  ∧ length (entries r.1) = S (length (entries demo_world))
  ∧ r.1 ≠ demo_world.
Proof. vm_compute. split_and!; try reflexivity. discriminate. Qed.

(** ** [TaskView.post]: the hidden fields of the form *)

(** C9.  A submission that has the field [_task_id] and lacks [_task_type]
    gets the [KeyError] object back as the response, nothing being raised
    and the world left as it was; a submission that lacks [_task_id] raises
    a [KeyError]. *)
Theorem post_missing_task_type_returns_KeyError
    (serve : QueryDict → M Response) (POST : QueryDict) (w : World) :
  (contains POST "_task_id" = true → contains POST "_task_type" = false →
     TaskView.post serve POST w =
     (w, inr (ExceptionObject
                (KeyError "Missing _task_type field. Include moonsheep_token template tag!"))))
  ∧ (contains POST "_task_id" = false →
       TaskView.post serve POST w =
       (w, inl (KeyError "Missing _task_id field. Include moonsheep_token template tag!"))).
Proof.
  unfold TaskView.post. split.
  - intros -> ->. reflexivity.
  - intros ->. reflexivity.
Qed.

(** ** Manual verification: the options of each field *)

Lemma values_add_inr (v : value) (values : list value) :
  (∃ vs, ManualVerificationView.values_add v values = inr vs)
  ↔ ManualVerificationView.hashable v = true.
Proof.
  unfold ManualVerificationView.values_add.
  destruct (ManualVerificationView.hashable v); split; eauto; try done.
  by intros [vs [=]].
Qed.

Lemma fold_add_field (items : dict) (fields : list (string * list value)) :
  (∃ fs, foldE ManualVerificationView.add_field items fields = inr fs)
  ↔ Forall (λ item, ManualVerificationView.hashable item.2 = true) items.
Proof.
  revert fields. induction items as [|[fld v] items IH]; intros fields; simpl.
  - split; eauto.
  - unfold mbind, Exc_bind.
    destruct (ManualVerificationView.values_add v _) as [e|vs] eqn:Hadd; cbn.
    + split; [by intros [fs [=]]|]. inversion 1 as [|? ? Hh _]; subst.
      cbn in Hh.
      destruct (proj2 (values_add_inr v (default [] (dict_get fld fields))) Hh)
        as [vs Hvs].
      rewrite Hvs in Hadd. done.
    + rewrite IH. split; [|by inversion 1].
      intros Hall. constructor; [|done]. cbn.
      eapply (proj1 (values_add_inr v _)). eauto.
Qed.

Lemma fold_add_field_error (items : dict) (fields : list (string * list value)) (e : exn) :
  foldE ManualVerificationView.add_field items fields = inl e →
  e = TypeError "unhashable type".
Proof.
  revert fields. induction items as [|[fld v] items IH]; intros fields; simpl;
    [done|].
  unfold mbind, Exc_bind, ManualVerificationView.values_add.
  destruct (ManualVerificationView.hashable v); cbn; [apply IH|congruence].
Qed.

Lemma entries_data_from (es : list Entry) (fields : list (string * list value)) :
  ((∃ fs, foldE (λ e fields, foldE ManualVerificationView.add_field (data e) fields)
            es fields = inr fs)
   ↔ ∀ e fld v, e ∈ es → (fld, v) ∈ data e →
       ManualVerificationView.hashable v = true)
  ∧ (∀ x, foldE (λ e fields, foldE ManualVerificationView.add_field (data e) fields)
            es fields = inl x → x = TypeError "unhashable type").
Proof.
  revert fields. induction es as [|e es IH]; intros fields; simpl.
  - split; [|done]. split; [|eauto]. intros _ e fld v Hin.
    by apply elem_of_nil in Hin.
  - destruct (foldE ManualVerificationView.add_field (data e) fields)
      as [x|fs] eqn:Hfold.
    + split; [|intros ? [= <-]; by eapply fold_add_field_error].
      split; [by intros [fs [=]]|]. intros Hall.
      assert (∃ fs, foldE ManualVerificationView.add_field (data e) fields = inr fs)
        as [fs Hfs]; [|congruence].
      apply (proj2 (fold_add_field _ _)), Forall_forall. intros [fld v] Hin.
      eapply Hall; [left|done].
    + destruct (IH fs) as [IH1 IH2]. split; [|done].
      rewrite IH1. split.
      * intros Hall e' fld v Hin Hitem.
        apply elem_of_cons in Hin as [->|Hin]; [|by eapply Hall].
        assert (Forall (λ item, ManualVerificationView.hashable item.2 = true)
                  (data e)) as Hf
          by (eapply (proj1 (fold_add_field _ _)); eauto).
        rewrite Forall_forall in Hf. by apply (Hf (fld, v)).
      * intros Hall e' fld v Hin. apply Hall. by right.
Qed.

(** C10.  The options of the fields of a task are returned exactly when
    every field value of every one of its entries is hashable, that is a
    string or [None]; otherwise building the sets raises [TypeError].  The
    normalizer produces such data: a field with forced-array brackets
    becomes a list, and an entry holding it makes the listing fail. *)
Theorem entries_data_hashable_only (es : list Entry) :
  ((∃ fields, ManualVerificationView.entries_data es = inr fields)
   ↔ ∀ e fld v, e ∈ es → (fld, v) ∈ data e →
       ManualVerificationView.hashable v = true)
  ∧ (∀ x, ManualVerificationView.entries_data es = inl x →
       x = TypeError "unhashable type")
  ∧ (∀ hash u pk,
       @unpack_post dpath_ref hash [("tags[]", "a")] = inr [("tags", VList [VStr "a"])]
       ∧ ManualVerificationView.entries_data
           [{| task_id := pk; user := u; data := [("tags", VList [VStr "a"])];
               closed_manually := false |}]
         = inl (TypeError "unhashable type")).
Proof.
  destruct (entries_data_from es []) as [H1 H2].
  split_and!; [exact H1 | exact H2 |].
  intros hash u pk. split; reflexivity.
Qed.

(** ** The progress tree of a document *)

Section progress_tree.
Import DocumentListView.

Lemma StronglySorted_lookup_lt {A} (R : relation A) (l : list A) (i j : nat) (x y : A) :
  StronglySorted R l → l !! i = Some x → l !! j = Some y → (i < j)%nat → R x y.
Proof.
  intros Hs Hi Hj Hlt.
  rewrite <-(take_drop_middle l i x Hi) in Hs, Hj.
  apply StronglySorted_app_1_r, StronglySorted_cons in Hs as [Hall _].
  rewrite Forall_forall in Hall. apply Hall.
  rewrite lookup_app_r in Hj by (rewrite length_take; lia).
  apply lookup_lt_Some in Hi as Hil.
  rewrite length_take_le in Hj by lia.
  destruct (j - i)%nat as [|k] eqn:Hk; [lia|]. simpl in Hj.
  eapply list_elem_of_lookup_2; eauto.
Qed.

#[global] Instance id_le_total : Total id_le.
Proof. intros a b. unfold id_le. lia. Qed.

#[global] Instance id_le_trans : Transitive id_le.
Proof. intros a b c. unfold id_le. lia. Qed.

(** Sorted by id, a forest whose parents have the smaller ids comes parents
    first. *)
Lemma sorted_parents_first (ts : list Task) :
  StronglySorted id_le ts →
  (∀ t p, t ∈ ts → parent_id t = Some p →
     p < id t ∧ ∃ t', t' ∈ ts ∧ id t' = p) →
  parents_first ts.
Proof.
  intros Hs Hforest i t p Hi Hp.
  destruct (Hforest t p) as (Hlt & t' & Hin' & Hid'); [|done|].
  { eapply list_elem_of_lookup_2; eauto. }
  apply list_elem_of_lookup_1 in Hin' as [j Hj].
  exists j, t'. split_and!; [|done|done].
  destruct (decide (j < i)%nat) as [|Hge]; [done|]. exfalso.
  destruct (decide (j = i)) as [->|Hne].
  - assert (t' = t) by congruence. subst. lia.
  - assert (id_le t t') as Hle.
    { eapply (StronglySorted_lookup_lt id_le ts i j); eauto. lia. }
    unfold id_le in Hle. lia.
Qed.

Lemma task_alter_append (h : list node) (q a i : nat) :
  task <$> alter (append_child a) q h !! i = task <$> h !! i.
Proof.
  destruct (decide (q = i)) as [->|Hne].
  - rewrite list_lookup_alter_eq. by destruct (h !! i).
  - by rewrite list_lookup_alter_ne.
Qed.

Lemma children_alter_append (h : list node) (q a p x : nat) :
  x ∈ default [] (children <$> h !! p) →
  x ∈ default [] (children <$> alter (append_child a) q h !! p).
Proof.
  destruct (decide (q = p)) as [->|Hne].
  - rewrite list_lookup_alter_eq. destruct (h !! p); simpl; [|done].
    intros Hx. apply elem_of_app. by left.
  - by rewrite list_lookup_alter_ne.
Qed.

Lemma concat_children_alter (h : list node) (q a : nat) :
  (q < length h)%nat →
  concat (children <$> alter (append_child a) q h) ≡ₚ a :: concat (children <$> h).
Proof.
  revert q. induction h as [|n h IH]; intros q Hq; simpl in Hq; [lia|].
  destruct q as [|q].
  - change (alter (append_child a) 0%nat (n :: h)) with (append_child a n :: h).
    rewrite !fmap_cons. cbn [concat append_child children].
    rewrite <-app_assoc. simpl. by rewrite <-Permutation_middle.
  - change (alter (append_child a) (S q) (n :: h))
      with (n :: alter (append_child a) q h).
    rewrite !fmap_cons. cbn [concat].
    rewrite IH by lia. by rewrite <-Permutation_middle.
Qed.

(** The loop goes through a list that comes parents first without a
    [KeyError], and links every task. *)
Lemma add_tasks_linked (ts : list Task) :
  NoDup (id <$> ts) → parents_first ts →
  ∃ s, foldE add_task ts initial = inr s ∧ linked ts s.
Proof.
  induction ts as [|t ts IH] using rev_ind; intros Hnd Hpf.
  - exists initial. split; [done|]. unfold linked, node_of. simpl.
    split_and!; try done; intros i t Hi; by rewrite lookup_nil in Hi.
  - rewrite fmap_app in Hnd. apply NoDup_app in Hnd as (Hnd & Hfresh & _).
    assert (Hnew : ∀ t', t' ∈ ts → id t' ≠ id t).
    { intros t' Hin Heq. apply (Hfresh (id t')).
      - apply list_elem_of_fmap. eauto.
      - rewrite Heq. simpl. left. }
    assert (Hpf' : parents_first ts).
    { intros i t0 p Hi Hp.
      destruct (Hpf i t0 p) as (j & t' & Hj & Hlook & Hid); [|done|].
      { by apply lookup_app_l_Some. }
      exists j, t'. split_and!; [done| |done].
      apply lookup_lt_Some in Hi.
      by rewrite lookup_app_l in Hlook by lia. }
    destruct (IH Hnd Hpf') as (s & Hfold & Hlen & Hroot & Hrootkey & Hall & Hperm).
    rewrite foldE_app, Hfold. simpl. unfold add_task.
    set (a := length (heap s)).
    set (heap1 := heap s ++ [{| task := Some t; children := [] |}]).
    set (nodes1 := <[Some (id t) := a]> (nodes s)).
    assert (Hparent : ∃ q, nodes1 !! parent_id t = Some q ∧ (q < length (heap s))%nat).
    { destruct (parent_id t) as [p|] eqn:Hp.
      - destruct (Hpf (length ts) t p) as (j & t' & Hj & Hlook & Hid); [|done|].
        { by rewrite list_lookup_middle. }
        rewrite lookup_app_l in Hlook by lia.
        destruct (Hall j t' Hlook) as (Hnode & _).
        exists (S j). split; [|lia]. subst nodes1.
        rewrite lookup_insert_ne.
        + by rewrite <-Hid.
        + intros [= Heq]. apply (Hnew t'); [|congruence].
          eapply list_elem_of_lookup_2; eauto.
      - exists 0%nat. split; [|lia]. subst nodes1.
        by rewrite lookup_insert_ne. }
    destruct Hparent as (q & Hq & Hqlt). rewrite Hq.
    eexists. split; [reflexivity|].
    unfold linked, node_of, children_of. simpl.
    rewrite length_alter. subst heap1. rewrite !length_app. simpl.
    split_and!.
    + lia.
    + rewrite task_alter_append, lookup_app_l by lia. done.
    + subst nodes1. by rewrite lookup_insert_ne.
    + intros i t0 Hi. apply lookup_app_Some in Hi as [Hi|[Hge Hi]].
      * destruct (Hall i t0 Hi) as (Hnode & Htask & p & Hp & Hchild).
        apply lookup_lt_Some in Hi as Hlt.
        split_and!.
        -- subst nodes1. rewrite lookup_insert_ne; [done|].
           intros [= Heq]. apply (Hnew t0); [|done].
           eapply list_elem_of_lookup_2; eauto.
        -- rewrite task_alter_append, lookup_app_l by lia. done.
        -- exists p. split.
           ++ subst nodes1. rewrite lookup_insert_ne; [done|].
              intros Heq. destruct (Hpf' i t0 (id t)) as (j & t' & _ & Hj & Hid);
                [done|done|].
              apply (Hnew t'); [|done]. eapply list_elem_of_lookup_2; eauto.
           ++ apply children_alter_append.
              unfold children_of in Hchild.
              destruct (heap s !! p) as [n|] eqn:Hn;
                [|by apply elem_of_nil in Hchild].
              by rewrite (lookup_app_l_Some _ _ _ _ Hn).
      * destruct (i - length ts)%nat as [|k] eqn:Hk; [|by destruct k].
        injection Hi as <-. assert (i = length ts) as -> by lia.
        split_and!.
        -- subst nodes1. rewrite lookup_insert_eq. f_equal. subst a. lia.
        -- rewrite task_alter_append.
           replace (S (length ts)) with (length (heap s)) by lia.
           by rewrite list_lookup_middle.
        -- exists q. split; [done|].
           rewrite list_lookup_alter_eq, lookup_app_l by lia.
           destruct (heap s !! q) as [n|] eqn:Hn.
           ++ simpl. apply elem_of_app. right. subst a. rewrite Hlen. left.
           ++ apply lookup_ge_None in Hn. lia.
    + rewrite concat_children_alter by (rewrite length_app; simpl; lia).
      rewrite fmap_app, concat_app. simpl. rewrite app_nil_r, Hperm.
      replace (length ts + 1)%nat with (S (length ts)) by lia.
      rewrite seq_S. subst a. rewrite Hlen. simpl.
      by rewrite <-Permutation_cons_append.
Qed.

(** C4, as amended.  For the tasks of one document that form a forest in
    which every parent reference names a task of the document with a
    smaller id than the child, building the tree succeeds and gives one
    node per task: the root at address 0, the node of the [i]-th task (in
    the order of the ids) at address [i + 1], registered under the id of
    its task and holding it; the node of every task is among the children
    of the node of its parent, the root for a task without parent; and
    every address but the root's is listed exactly once in all the lists of
    children together. *)
Theorem progress_tree_links_every_task (w : World) (doc : Z) :
  NoDup (id <$> tasks w) →
  (∀ t p, t ∈ tasks w → doc_id t = doc → parent_id t = Some p →
     p < id t ∧ ∃ t', t' ∈ tasks w ∧ doc_id t' = doc ∧ id t' = p) →
  let ts := tasks_of_document w doc in
  ts ≡ₚ filter (λ t, doc_id t = doc) (tasks w)
  ∧ ∃ s, progress_tree w doc = inr s
      ∧ length (heap s) = S (length ts)
      ∧ task <$> heap s !! 0%nat = Some None
      ∧ node_of s None = Some 0%nat
      ∧ (∀ i t, ts !! i = Some t →
           node_of s (Some (id t)) = Some (S i)
           ∧ task <$> heap s !! S i = Some (Some t)
           ∧ ∃ p, node_of s (parent_id t) = Some p ∧ S i ∈ children_of s p)
      ∧ concat (children <$> heap s) ≡ₚ seq 1 (length ts).
Proof.
  intros Hpk Hforest ts. subst ts.
  assert (Hperm : tasks_of_document w doc
                  ≡ₚ filter (λ t, doc_id t = doc) (tasks w))
    by apply merge_sort_Permutation.
  split; [done|].
  assert (Hin : ∀ t, t ∈ tasks_of_document w doc ↔ t ∈ tasks w ∧ doc_id t = doc).
  { intros t. rewrite Hperm, list_elem_of_filter. tauto. }
  apply add_tasks_linked.
  - rewrite Hperm. eapply sublist_NoDup; [exact Hpk|].
    apply fmap_sublist, sublist_filter.
  - apply sorted_parents_first.
    + apply (StronglySorted_merge_sort _).
    + intros t p Ht Hp. apply Hin in Ht as [Ht Hdoc].
      destruct (Hforest t p Ht Hdoc Hp) as (Hlt & t' & Ht' & Hdoc' & Hid).
      split; [done|]. exists t'. split; [|done]. by apply Hin.
Qed.

Lemma progress_tree_links_every_task_witness :
  let ts := tasks_of_document demo_world 1 in
  ts ≡ₚ filter (λ t, doc_id t = 1) (tasks demo_world)
  ∧ ∃ s, progress_tree demo_world 1 = inr s
      ∧ length (heap s) = S (length ts)
      ∧ task <$> heap s !! 0%nat = Some None
      ∧ node_of s None = Some 0%nat
      ∧ (∀ i t, ts !! i = Some t →
           node_of s (Some (id t)) = Some (S i)
           ∧ task <$> heap s !! S i = Some (Some t)
           ∧ ∃ p, node_of s (parent_id t) = Some p ∧ S i ∈ children_of s p)
      ∧ concat (children <$> heap s) ≡ₚ seq 1 (length ts).
Proof.
  apply (progress_tree_links_every_task demo_world 1).
  - apply (bool_decide_unpack _). vm_compute. exact I.
  - intros t p Hin _ Hp. simpl in Hin.
    repeat (apply elem_of_cons in Hin as [->|Hin]);
      try (by apply elem_of_nil in Hin); simpl in Hp; try discriminate;
      injection Hp as <-; (split; [simpl; lia|]);
      exists task1; (split_and!; [left|reflexivity|reflexivity]).
Defined.

(** Against C4 as the design document has it: tasks 4 and 5 form a valid
    forest, every parent reference naming a task of the document, and the
    loop raises [KeyError] at task 4, whose parent has the greater id and
    is not yet registered. *)
Lemma progress_tree_child_before_parent :
  NoDup (id <$> tasks child_first_world)
  ∧ (∀ t p, t ∈ tasks child_first_world → parent_id t = Some p →
       ∃ t', t' ∈ tasks child_first_world ∧ doc_id t' = doc_id t ∧ id t' = p)
  ∧ progress_tree child_first_world 2 = inl (KeyError "5").
Proof.
  split_and!.
  - apply (bool_decide_unpack _). vm_compute. exact I.
  - intros t p Hin Hp. simpl in Hin.
    repeat (apply elem_of_cons in Hin as [->|Hin]);
      try (by apply elem_of_nil in Hin); simpl in Hp; try discriminate.
    injection Hp as <-. exists task5. split_and!; [right; left|done|done].
  - vm_compute. reflexivity.
Qed.

End progress_tree.

(** ** Field names: the pattern and the path grammar *)

#[local] Arguments String.append !_ _ / : simpl nomatch.

Lemma string_app_assoc (a b c : string) : (a +:+ b) +:+ c = a +:+ (b +:+ c).
Proof. induction a as [|x a IH]; simpl; [done|]. by f_equal. Qed.

Lemma string_app_nil_r (a : string) : a +:+ "" = a.
Proof. induction a as [|x a IH]; simpl; [done|]. by f_equal. Qed.

Lemma span_app (f : ascii → bool) (a r : string) :
  forallb f (list_ascii_of_string a) = true → stops f r →
  span f (a +:+ r) = (a, r).
Proof.
  intros Ha Hr. induction a as [|x a IH]; simpl in *.
  - destruct r as [|c r]; simpl in *; [done|]. by rewrite Hr.
  - apply andb_prop in Ha as [-> Ha]. by rewrite IH.
Qed.

Lemma span_sound (f : ascii → bool) (s a r : string) :
  span f s = (a, r) →
  s = a +:+ r ∧ forallb f (list_ascii_of_string a) = true ∧ stops f r.
Proof.
  revert a r. induction s as [|c s IH]; intros a r; simpl.
  - by intros [= <- <-].
  - destruct (f c) eqn:Hc.
    + destruct (span f s) as [a' r'] eqn:Hs. intros [= <- <-].
      destruct (IH a' r' eq_refl) as (-> & Ha & Hr). simpl.
      rewrite Hc. done.
    + intros [= <- <-]. simpl. done.
Qed.

Lemma selectors_sound (fuel : nat) (s : string) (l : list string) (rest : string) :
  selectors fuel s = (l, rest) →
  s = brackets l +:+ rest ∧ Forall is_name l.
Proof.
  revert s l rest. induction fuel as [|fuel IH]; intros s l rest; simpl.
  - by intros [= <- <-].
  - destruct s as [|c s]; [by intros [= <- <-]|].
    destruct (decide (c = "["%char)) as [->|]; [|by intros [= <- <-]].
    destruct (span is_name_char s) as [idx r'] eqn:Hspan.
    apply span_sound in Hspan as (-> & Hidx & _).
    destruct idx as [|x idx]; [by intros [= <- <-]|].
    destruct r' as [|c' r'']; [by intros [= <- <-]|].
    destruct (decide (c' = "]"%char)) as [->|]; [|by intros [= <- <-]].
    destruct (selectors fuel r'') as [l' rest'] eqn:Hsel.
    intros [= <- <-]. apply IH in Hsel as (-> & Hl').
    split.
    + simpl. f_equal. f_equal. rewrite !string_app_assoc. done.
    + constructor; [|done]. split; [done|exact Hidx].
Qed.

Lemma selectors_complete (l : list string) (fuel : nat) (rest : string) :
  Forall is_name l → (length l ≤ fuel)%nat → no_selector rest →
  selectors fuel (brackets l +:+ rest) = (l, rest).
Proof.
  intros Hl. revert fuel. induction Hl as [|k l [Hne Hk] _ IH];
    intros fuel Hfuel Hrest; simpl.
  - apply Hrest.
  - destruct fuel as [|fuel]; [simpl in Hfuel; lia|]. simpl.
    rewrite !string_app_assoc. simpl.
    rewrite (span_app is_name_char k) by done.
    destruct k as [|x k]; [done|].
    rewrite IH; [done| simpl in Hfuel; lia | done].
Qed.

Lemma length_brackets (l : list string) (rest : string) :
  (length l ≤ String.length (brackets l +:+ rest))%nat.
Proof.
  induction l as [|k l IH]; simpl; [lia|].
  rewrite !string_app_assoc. simpl.
  assert (∀ a b, String.length b ≤ String.length (a +:+ b))%nat as Hmono.
  { intros a b. induction a; simpl; lia. }
  pose proof (Hmono k (String "]" (brackets l +:+ rest))) as H1.
  simpl in H1. lia.
Qed.

(** The pattern accepts exactly the strings of the path grammar, each also
    when followed by one line feed, and its groups are the parts of the
    string. *)
Lemma field_name_match_Some (k name : string) (keys : list string) (trailing : bool) :
  field_name_match k = Some (name, keys, trailing) ↔
  is_name name ∧ Forall is_name keys
  ∧ ∃ tail, line_end tail ∧ k = render name keys trailing +:+ tail.
Proof.
  unfold field_name_match, render. split.
  - destruct (span is_name_char k) as [object r1] eqn:Hspan.
    apply span_sound in Hspan as (-> & Hobj & _).
    destruct (decide (object = "")) as [|Hne]; [done|].
    destruct (selectors _ r1) as [sels r2] eqn:Hsel.
    apply selectors_sound in Hsel as (-> & Hsels).
    destruct (trailing_brackets r2) as [tb r3] eqn:Htb.
    destruct (decide (r3 = "" ∨ r3 = String LF "")) as [Hend|]; [|done].
    intros [= -> -> ->]. split_and!; [done..|].
    exists r3. split; [exact Hend|].
    rewrite !string_app_assoc. do 2 f_equal.
    unfold trailing_brackets in Htb.
    destruct r2 as [|c [|c' r]]; try (by injection Htb as <- <-).
    destruct (decide (c = "["%char ∧ c' = "]"%char)) as [[-> ->]|];
      by injection Htb as <- <-.
  - intros ([Hne Hname] & Hkeys & tail & Htail & ->).
    rewrite !string_app_assoc.
    assert (Hno : no_selector ((if trailing then "[]" else "") +:+ tail)).
    { intros fuel. destruct Htail as [-> | ->], trailing, fuel; reflexivity. }
    rewrite (span_app is_name_char name); [|done|].
    2:{ destruct keys; simpl; [|done].
        destruct Htail as [-> | ->], trailing; reflexivity. }
    destruct (decide (name = "")) as [|_]; [done|].
    rewrite selectors_complete; [|done|apply length_brackets|done].
    destruct Htail as [-> | ->], trailing; reflexivity.
Qed.


(** ** [QueryDict] *)

Lemma elem_of_QueryDict_keys (post : QueryDict) (k : string) :
  k ∈ QueryDict_keys post ↔ k ∈ post.*1.
Proof.
  induction post as [|[k0 v0] post IH]; simpl; [done|].
  rewrite !elem_of_cons, list_elem_of_filter, IH.
  destruct (decide (k = k0)); tauto.
Qed.

Lemma NoDup_QueryDict_keys (post : QueryDict) : NoDup (QueryDict_keys post).
Proof.
  induction post as [|[k0 v0] post IH]; simpl; [constructor|].
  constructor.
  - rewrite list_elem_of_filter. tauto.
  - by apply NoDup_filter.
Qed.

Lemma getlist_app (post post' : QueryDict) (k : string) :
  getlist (post ++ post') k = getlist post k ++ getlist post' k.
Proof. unfold getlist. by rewrite filter_app, fmap_app. Qed.

Lemma getlist_cons_eq (post : QueryDict) (k v : string) :
  getlist ((k, v) :: post) k = v :: getlist post k.
Proof. unfold getlist. by rewrite filter_cons_True. Qed.

Lemma getlist_nonempty (post : QueryDict) (k : string) :
  k ∈ QueryDict_keys post → getlist post k ≠ [].
Proof.
  rewrite elem_of_QueryDict_keys. intros Hin.
  apply list_elem_of_fmap in Hin as ([k' v] & -> & Hin).
  apply list_elem_of_split in Hin as (pre & suf & ->).
  rewrite getlist_app. simpl. rewrite getlist_cons_eq.
  by destruct (getlist pre k').
Qed.

(** ** The value kept for a field *)

(** C6.  For a key of the mapping, [get_list_or_value] keeps the list of
    the strings submitted under it, in their order, when there are two or
    more of them or when the name ends with the empty brackets, and gives
    the single string otherwise.  A name that occurs twice is one key, and
    its values are all collected, in the order of the body; submitted
    twice under a flat name, two values come out of [unpack_post] as the
    list of both. *)
Theorem get_list_or_value_sequence_or_single
    (post : QueryDict) (k : string) (trailing : bool) :
  k ∈ QueryDict_keys post →
  getlist post k ≠ []
  ∧ ((2 ≤ length (getlist post k))%nat ∨ trailing = true →
       get_list_or_value post k trailing = VList (VStr <$> getlist post k))
  ∧ ((length (getlist post k) < 2)%nat → trailing = false →
       ∃ v, getlist post k = [v] ∧ get_list_or_value post k trailing = VStr v)
  ∧ (∀ pre mid suf a b, post = pre ++ (k, a) :: mid ++ (k, b) :: suf →
       getlist post k = getlist pre k ++ a :: getlist mid k ++ b :: getlist suf k)
  ∧ NoDup (QueryDict_keys post)
  ∧ (∀ hash a b, is_name k →
       @unpack_post dpath_ref hash [(k, a); (k, b)] = inr [(k, VList [VStr a; VStr b])]).
Proof.
  intros Hk. pose proof (getlist_nonempty post k Hk) as Hne.
  unfold get_list_or_value. split_and!.
  - done.
  - intros [Hlen | ->]; destruct (getlist post k) as [|v [|v' l]]; simpl in *;
      try done; lia.
  - intros Hlen ->. destruct (getlist post k) as [|v [|v' l]]; simpl in *;
      [done| |lia]. by exists v.
  - intros pre mid suf a b ->.
    by rewrite getlist_app, getlist_cons_eq, getlist_app, getlist_cons_eq.
  - apply NoDup_QueryDict_keys.
  - intros hash a b Hname.
    assert (Hm : field_name_match k = Some (k, [], false)).
    { apply field_name_match_Some. split_and!; [done|constructor|].
      exists "". split; [by left|]. unfold render. simpl.
      by rewrite !string_app_nil_r. }
    unfold unpack_post. simpl. rewrite filter_cons_False by tauto.
    simpl. unfold insert_field. rewrite Hm. simpl.
    unfold get_list_or_value, getlist.
    rewrite !filter_cons_True by done. simpl.
    destruct (decide (k = k)); done.
Qed.

Lemma get_list_or_value_sequence_or_single_witness :
  getlist [("tag", "a"); ("name", "n"); ("tag", "b")] "tag" ≠ []
  ∧ ((2 ≤ length (getlist [("tag", "a"); ("name", "n"); ("tag", "b")] "tag"))%nat
     ∨ false = true →
       get_list_or_value [("tag", "a"); ("name", "n"); ("tag", "b")] "tag" false
       = VList (VStr <$> getlist [("tag", "a"); ("name", "n"); ("tag", "b")] "tag"))
  ∧ ((length (getlist [("tag", "a"); ("name", "n"); ("tag", "b")] "tag") < 2)%nat →
     false = false →
       ∃ v, getlist [("tag", "a"); ("name", "n"); ("tag", "b")] "tag" = [v]
            ∧ get_list_or_value [("tag", "a"); ("name", "n"); ("tag", "b")] "tag" false
              = VStr v)
  ∧ (∀ pre mid suf a b,
       [("tag", "a"); ("name", "n"); ("tag", "b")]
       = pre ++ ("tag", a) :: mid ++ ("tag", b) :: suf →
       getlist [("tag", "a"); ("name", "n"); ("tag", "b")] "tag"
       = getlist pre "tag" ++ a :: getlist mid "tag" ++ b :: getlist suf "tag")
  ∧ NoDup (QueryDict_keys [("tag", "a"); ("name", "n"); ("tag", "b")])
  ∧ (∀ hash a b, is_name "tag" →
       @unpack_post dpath_ref hash [("tag", a); ("tag", b)]
       = inr [("tag", VList [VStr a; VStr b])]).
Proof.
  apply (get_list_or_value_sequence_or_single
           [("tag", "a"); ("name", "n"); ("tag", "b")] "tag" false).
  vm_compute. left.
Defined.

(** ** The field-name error *)




Section field_name_error.
Context `{Dpath}.




End field_name_error.


(** ** Numeric levels *)

(** C5, where the code departs from it.  A level whose only key is [01] is
    all-numeric, and its conversion raises [KeyError]: the key is looked up
    again as [str(int("01"))], which is ["1"].  With the keys [01] and [1]
    at one level, the value of [01] is lost and that of [1] comes twice.
    With two numeric levels, one below a sparse one, the outcome follows
    the order in which the set of marked paths is iterated: once the outer
    level has been compacted, the path of the inner level under index 2 is
    gone. *)
Theorem unpack_post_numeric_level_failures :
  (∀ hash, @unpack_post dpath_ref hash [("a[01]", "x")] = inl (KeyError "1"))
  ∧ (∀ hash, @unpack_post dpath_ref hash [("a[01]", "x"); ("a[1]", "y")]
             = inr [("a", VList [VStr "y"; VStr "y"])])
  ∧ @unpack_post dpath_ref (λ p, length p) [("r[0][0]", "a"); ("r[2][0]", "b")]
    = inl (KeyError "r/2")
  ∧ @unpack_post dpath_ref (λ p, (3 - length p)%nat)
      [("r[0][0]", "a"); ("r[2][0]", "b")]
    = inr [("r", VList [VList [VStr "a"]; VList [VStr "b"]])].
Proof. split_and!; try (intros hash); reflexivity. Qed.


(** ** The marked levels *)

Lemma elem_of_set_add (p q : path) (s : list path) :
  q ∈ set_add p s ↔ q = p ∨ q ∈ s.
Proof.
  unfold set_add. case_bool_decide as Hin.
  - split; [by right|]. by intros [->|].
  - rewrite elem_of_app, list_elem_of_singleton. tauto.
Qed.

Lemma walk_selectors_path (sels : list string) (p : path) (m : list path) :
  (walk_selectors sels p m).1 = p ++ sels.
Proof.
  revert p m. induction sels as [|idx sels IH]; intros p m; simpl.
  - by rewrite app_nil_r.
  - by rewrite IH, <-app_assoc.
Qed.

Lemma walk_selectors_marks (sels : list string) (p : path) (m : list path) (q : path) :
  q ∈ (walk_selectors sels p m).2 ↔ q ∈ m ∨ q ∈ (walk_selectors sels p []).2.
Proof.
  revert p m. induction sels as [|idx sels IH]; intros p m; simpl.
  - rewrite elem_of_nil. tauto.
  - rewrite IH, (IH _ (if starts_with_digit idx then _ else _)).
    destruct (starts_with_digit idx).
    + rewrite !elem_of_set_add, elem_of_nil. tauto.
    + rewrite elem_of_nil. tauto.
Qed.


Lemma insert_field_inr `{Dpath} (post : QueryDict) (k : string) (st st' : dict * list path) :
  insert_field post k st = inr st' →
  ∃ object sels trailing,
    field_name_match k = Some (object, sels, trailing)
    ∧ dpath_new st.1 (object :: sels) (get_list_or_value post k trailing) = inr st'.1
    ∧ st'.2 = (walk_selectors sels [object] st.2).2.
Proof.
  unfold insert_field.
  destruct (field_name_match k) as [[[object sels] trailing]|]; [|done].
  pose proof (walk_selectors_path sels [object] st.2) as Hp.
  destruct (walk_selectors sels [object] st.2) as [p marked] eqn:Hw.
  simpl in Hp. subst p. unfold mbind, Exc_bind, mret, Exc_ret.
  destruct (dpath_new _ _ _) as [e|r] eqn:Hnew; [done|].
  intros [= <-]. exists object, sels, trailing. by rewrite Hw.
Qed.

Lemma insert_fields_marks `{Dpath} (post : QueryDict) (ks : list string)
    (st st' : dict * list path) (q : path) :
  foldE (insert_field post) ks st = inr st' →
  q ∈ st'.2 ↔ q ∈ st.2 ∨ ∃ k, k ∈ ks ∧ q ∈ marks_of k.
Proof.
  revert st. induction ks as [|k ks IH]; intros st; simpl.
  - intros [= <-]. split; [by left|]. intros [|(k & Hk & _)]; [done|].
    by apply elem_of_nil in Hk.
  - destruct (insert_field post k st) as [e|st1] eqn:Hk; [done|].
    intros Hks. rewrite (IH st1 Hks).
    apply insert_field_inr in Hk as (object & sels & trailing & Hm & _ & ->).
    rewrite walk_selectors_marks. unfold marks_of at 2.
    split.
    + intros [[|Hq]|(k' & Hin & Hq)]; [by left| |].
      * right. exists k. split; [left|]. unfold marks_of. by rewrite Hm.
      * right. exists k'. split; [by right|done].
    + intros [|(k' & Hin & Hq)]; [by left; left|].
      apply elem_of_cons in Hin as [->|Hin].
      * left. right. unfold marks_of in Hq. by rewrite Hm in Hq.
      * right. eauto.
Qed.

(** ** Insertion and the levels that cannot be converted *)

Lemma dict_get_set_eq {V} (k : string) (v : V) (d : list (string * V)) :
  dict_get k (dict_set k v d) = Some v.
Proof.
  induction d as [|[k' v'] d IH]; simpl.
  - by rewrite decide_True.
  - destruct (decide (k' = k)) as [->|Hne]; simpl.
    + by rewrite decide_True.
    + by rewrite decide_False.
Qed.

Lemma dict_get_set_ne {V} (k k0 : string) (v : V) (d : list (string * V)) :
  k ≠ k0 → dict_get k0 (dict_set k v d) = dict_get k0 d.
Proof.
  intros Hne. induction d as [|[k' v'] d IH]; simpl.
  - by rewrite decide_False.
  - destruct (decide (k' = k)) as [->|Hne']; simpl.
    + by rewrite !decide_False.
    + destruct (decide (k' = k0)); [done|apply IH].
Qed.



Lemma dict_set_keys_same {V} (k : string) (v v0 : V) (d : list (string * V)) :
  dict_get k d = Some v0 → (dict_set k v d).*1 = d.*1.
Proof.
  induction d as [|[k' v'] d IH]; simpl; [done|].
  destruct (decide (k' = k)) as [->|]; simpl; [done|].
  intros Hget. f_equal. by apply IH.
Qed.










(** ** Conversion and the levels that cannot be converted *)







Lemma dpath_ref_new_inr (r : dict) (p : path) (a : value) (r' : dict) :
  @dpath_new dpath_ref r p a = inr r' →
  ∃ v', ref_new (VDict r) p a = inr v' ∧ r' = dict_of v'.
Proof.
  change (@dpath_new dpath_ref r p a) with (dict_of <$> ref_new (VDict r) p a).
  unfold fmap, Exc_fmap. destruct (ref_new (VDict r) p a) as [?|v']; [done|].
  intros [= <-]. eauto.
Qed.





(** ** Conversion of a level with numeric keys *)

Lemma dict_get_elem_of {V} (k : string) (d : list (string * V)) :
  k ∈ d.*1 → ∃ v, dict_get k d = Some v.
Proof.
  induction d as [|[k' v'] d IH]; simpl; [by intros ?%elem_of_nil|].
  rewrite elem_of_cons. destruct (decide (k' = k)) as [->|Hne]; [eauto|].
  intros [->|Hin]; [done|auto].
Qed.

Lemma mapE_total {A B} (f : A → Exc B) (l : list A) :
  (∀ x, x ∈ l → ∃ y, f x = inr y) → ∃ ys, mapE f l = inr ys.
Proof.
  induction l as [|x l IH]; intros Hall; simpl; [eauto|].
  destruct (Hall x) as [y ->]; [left|].
  destruct IH as [ys ->]; [|eauto]. intros x' Hx'. apply Hall. by right.
Qed.

(** The body of the second loop, at a level whose keys are all written as
    [str] prints an integer: the level is replaced by the array of its
    values in the ascending order of the keys read as integers, one element
    per key and none in between. *)
Theorem convert_to_array_sorted_compact `{Dpath}
    (path_to_d : path) (result d : dict) :
  dpath_get result path_to_d = inr (VDict d) →
  (∀ k, k ∈ d.*1 → ∃ z, py_int k = inr z ∧ py_str z = k) →
  ∃ numeric_keys arr,
    Forall2 (λ k z, py_int k = inr z) d.*1 numeric_keys
    ∧ Forall2 (λ z v, dict_get (py_str z) d = Some v)
        (merge_sort Z.le numeric_keys) arr
    ∧ StronglySorted Z.le (merge_sort Z.le numeric_keys)
    ∧ merge_sort Z.le numeric_keys ≡ₚ numeric_keys
    ∧ length arr = length d
    ∧ convert_to_array path_to_d result = dpath_set result path_to_d (VList arr).
Proof.
  intros Hget Hkeys.
  destruct (mapE_total py_int d.*1) as [zs Hzs].
  { intros k Hk. destruct (Hkeys k Hk) as (z & Hz & _). eauto. }
  assert (Hzs2 := proj1 (mapE_inr _ _ _) Hzs).
  destruct (mapE_total (λ z, getitem (VDict d) (py_str z)) (merge_sort Z.le zs))
    as [arr Harr].
  { intros z Hz. rewrite merge_sort_Permutation in Hz.
    apply list_elem_of_lookup_1 in Hz as [i Hi].
    destruct (Forall2_lookup_r _ _ _ _ _ Hzs2 Hi) as (k & Hk & Hkz).
    destruct (Hkeys k) as (z' & Hz' & Hstr);
      [by eapply list_elem_of_lookup_2|].
    assert (z' = z) as -> by congruence.
    destruct (dict_get_elem_of k d) as [v Hv];
      [by eapply list_elem_of_lookup_2|].
    exists v. simpl. by rewrite Hstr, Hv. }
  assert (Harr2 := proj1 (mapE_inr _ _ _) Harr).
  exists zs, arr. split_and!.
  - done.
  - eapply Forall2_impl; [exact Harr2|]. intros z v. simpl.
    destruct (dict_get (py_str z) d); [|done]. congruence.
  - apply (StronglySorted_merge_sort _).
  - apply merge_sort_Permutation.
  - rewrite <-(Forall2_length _ _ _ Harr2), merge_sort_Permutation.
    rewrite <-(Forall2_length _ _ _ Hzs2). by rewrite length_fmap.
  - unfold convert_to_array, mbind, Exc_bind. rewrite Hget. cbn [keys_of].
    by rewrite Hzs, Harr.
Qed.

Lemma convert_to_array_sorted_compact_witness :
  ∃ numeric_keys arr,
    Forall2 (λ k z, py_int k = inr z) ["2"; "0"; "10"] numeric_keys
    ∧ Forall2 (λ z v, dict_get (py_str z)
                        [("2", VStr "c"); ("0", VStr "a"); ("10", VStr "k")]
                      = Some v)
        (merge_sort Z.le numeric_keys) arr
    ∧ StronglySorted Z.le (merge_sort Z.le numeric_keys)
    ∧ merge_sort Z.le numeric_keys ≡ₚ numeric_keys
    ∧ length arr = 3%nat
    ∧ @convert_to_array dpath_ref ["a"]
        [("a", VDict [("2", VStr "c"); ("0", VStr "a"); ("10", VStr "k")])]
      = @dpath_set dpath_ref
          [("a", VDict [("2", VStr "c"); ("0", VStr "a"); ("10", VStr "k")])]
          ["a"] (VList arr).
Proof.
  apply (@convert_to_array_sorted_compact dpath_ref ["a"]
           [("a", VDict [("2", VStr "c"); ("0", VStr "a"); ("10", VStr "k")])]
           [("2", VStr "c"); ("0", VStr "a"); ("10", VStr "k")]).
  - reflexivity.
  - intros k Hk. simpl in Hk.
    repeat (apply elem_of_cons in Hk as [->|Hk]);
      try (by apply elem_of_nil in Hk); eexists; split; reflexivity.
Defined.

(** ** The pattern and the grammar, and two runs of [unpack_post] *)


(** The example of the design document, section 8. *)
Example unpack_post_design_example (hash : path → nat) :
  @unpack_post dpath_ref hash
    [("name", "Alice"); ("tags[]", "a"); ("tags[]", "b");
     ("row[0][id]", "x"); ("row[1][id]", "y")]
  = inr [("name", VStr "Alice"); ("tags", VList [VStr "a"; VStr "b"]);
         ("row", VList [VDict [("id", VStr "x")]; VDict [("id", VStr "y")]])].
Proof. reflexivity. Qed.

(** A name followed by a line feed is outside the grammar and passes the
    pattern, the line feed being dropped from the name. *)
Example unpack_post_accepts_line_feed (hash : path → nat) :
  ¬ path_grammar (String "a" (String LF ""))
  ∧ @unpack_post dpath_ref hash [(String "a" (String LF ""), "x")]
    = inr [("a", VStr "x")].
Proof.
  split; [|reflexivity].
  intros (name & keys & trailing & Hn & Hk & Hr).
  assert (Hm : field_name_match (String "a" (String LF ""))
               = Some (name, keys, trailing)).
  { apply field_name_match_Some. split_and!; [done..|].
    exists "". split; [by left|]. by rewrite string_app_nil_r. }
  vm_compute in Hm. injection Hm as <- <- <-. discriminate.
Qed.

(** * Further properties of the views *)

(** ** Selection: which tasks can be served, and the effect of an entry *)



Lemma has_entry_by_app (es es' : list Entry) (u : Z) (t : Task) :
  TaskView.has_entry_by (es ++ es') u t
  = TaskView.has_entry_by es u t || TaskView.has_entry_by es' u t.
Proof.
  unfold TaskView.has_entry_by.
  apply eq_true_iff_eq.
  rewrite orb_true_iff, !bool_decide_eq_true, Exists_app. done.
Qed.

(** Saving an entry takes its task out of the queue of its author and of
    nobody else: after [Entry(...).save()] the author is never served that
    task again, the tasks eligible for the author are the former ones but
    that task, and the tasks eligible for any other user are unchanged. *)
Theorem entry_removes_task_for_author_only (w : World) (e : Entry) :
  let w1 := (Entry_save e w).1 in
  (∀ r w' t, TaskView.choose_a_task (user e) r w1 = (w', inr t) →
     id t ≠ task_id e)
  ∧ TaskView.open_not_entered w1 (user e)
    = filter (λ t, id t ≠ task_id e) (TaskView.open_not_entered w (user e))
  ∧ (∀ u, u ≠ user e →
       TaskView.open_not_entered w1 u = TaskView.open_not_entered w u).
Proof.
  intros w1.
  assert (Hsingle : ∀ u t, TaskView.has_entry_by [e] u t
            = bool_decide (task_id e = id t ∧ user e = u)).
  { intros u t. unfold TaskView.has_entry_by. apply eq_true_iff_eq.
    rewrite !bool_decide_eq_true, Exists_cons, Exists_nil. tauto. }
  assert (Hauthor : TaskView.open_not_entered w1 (user e)
            = filter (λ t, id t ≠ task_id e)
                (TaskView.open_not_entered w (user e))).
  { unfold TaskView.open_not_entered, w1, Entry_save. simpl.
    rewrite list_filter_filter. apply list_filter_iff. intros t.
    rewrite has_entry_by_app, Hsingle, orb_false_iff, bool_decide_eq_false.
    split.
    - intros (Hs & Hn & Hne). split; [|done]. intros Heq. apply Hne. done.
    - intros (Hne & Hs & Hn). split_and!; [done..|]. intros [Heq _]. done. }
  split_and!.
  - intros r w' t Hrun.
    assert (Hel : t ∈ TaskView.open_not_entered w1 (user e)).
    { revert Hrun. unfold TaskView.choose_a_task, mbind, M_bind, query.
      case_bool_decide; [done|].
      destruct (TaskView.random_choice r _) as [t0|] eqn:Hch; [|done].
      intros [= _ ->]. unfold TaskView.random_choice in Hch.
      apply list_elem_of_lookup_2 in Hch. unfold TaskView.top_tasks in Hch.
      apply elem_of_take in Hch as (j & Hj & _).
      rewrite <-(merge_sort_Permutation TaskView.priority_desc).
      by eapply list_elem_of_lookup_2. }
    rewrite Hauthor in Hel. by apply list_elem_of_filter in Hel as [? _].
  - exact Hauthor.
  - intros u Hu. unfold TaskView.open_not_entered, w1, Entry_save. simpl.
    apply list_filter_iff. intros t.
    rewrite has_entry_by_app, Hsingle, orb_false_iff, bool_decide_eq_false.
    split; [tauto|]. intros (Hs & Hn). split_and!; [done..|].
    intros [_ Heq]. done.
Qed.

(** ** Manual verification: the options are the distinct values *)

Lemma dict_set_keys {V} (k k0 : string) (v : V) (d : list (string * V)) :
  k0 ∈ (dict_set k v d).*1 ↔ k0 = k ∨ k0 ∈ d.*1.
Proof.
  induction d as [|[k' v'] d IH]; simpl.
  - rewrite list_elem_of_singleton, elem_of_nil. tauto.
  - destruct (decide (k' = k)) as [->|Hne]; simpl.
    + rewrite !elem_of_cons. tauto.
    + rewrite !elem_of_cons, IH. tauto.
Qed.

Lemma dict_set_NoDup {V} (k : string) (v : V) (d : list (string * V)) :
  NoDup d.*1 → NoDup (dict_set k v d).*1.
Proof.
  induction d as [|[k' v'] d IH]; simpl; [intros _; apply NoDup_singleton|].
  rewrite NoDup_cons. intros [Hk' Hd].
  destruct (decide (k' = k)) as [->|Hne]; simpl.
  - by apply NoDup_cons.
  - apply NoDup_cons. split; [|by apply IH].
    rewrite dict_set_keys. intros [->|]; done.
Qed.

Lemma dict_get_None {V} (k : string) (d : list (string * V)) :
  dict_get k d = None ↔ k ∉ d.*1.
Proof.
  induction d as [|[k' v'] d IH]; simpl.
  - split; [intros _; apply not_elem_of_nil|done].
  - rewrite not_elem_of_cons. destruct (decide (k' = k)) as [->|Hne].
    + split; [done|]. by intros [? _].
    + rewrite IH. split; [by intros ?; split|by intros [_ ?]].
Qed.

Lemma scalar_eqb_eq (a b : value) :
  ManualVerificationView.hashable a = true →
  ManualVerificationView.scalar_eqb a b = true ↔ a = b.
Proof.
  destruct a, b; simpl; try done; intros _.
  rewrite bool_decide_eq_true. split; congruence.
Qed.

Lemma values_add_elem (v : value) (values vs : list value) :
  ManualVerificationView.values_add v values = inr vs →
  NoDup values →
  ManualVerificationView.hashable v = true
  ∧ NoDup vs ∧ ∀ x, x ∈ vs ↔ x = v ∨ x ∈ values.
Proof.
  unfold ManualVerificationView.values_add.
  destruct (ManualVerificationView.hashable v) eqn:Hh; [|done].
  intros [= <-] Hnd. split; [done|].
  destruct (existsb _ values) eqn:Hex.
  - split; [done|]. intros x. split; [by right|]. intros [->|]; [|done].
    apply existsb_exists in Hex as (y & Hy & Heq).
    apply scalar_eqb_eq in Heq as ->; [|done]. by apply list_elem_of_In.
  - split.
    + apply NoDup_app. split_and!; [done| |apply NoDup_singleton].
      intros x Hx ->%list_elem_of_singleton.
      assert (existsb (ManualVerificationView.scalar_eqb v) values = true)
        as Hcontra; [|congruence].
      apply existsb_exists. exists v. split; [by apply list_elem_of_In|].
      by apply scalar_eqb_eq.
    + intros x. rewrite elem_of_app, list_elem_of_singleton. tauto.
Qed.

(** The invariant of the two loops: [fields] holds one key per field name
    seen so far and, under it, each value seen for that field once. *)
Lemma add_fields_invariant (items seen : dict)
    (fields fields' : list (string * list value)) :
  foldE ManualVerificationView.add_field items fields = inr fields' →
  NoDup fields.*1 →
  (∀ fld, fld ∈ fields.*1 ↔ ∃ v, (fld, v) ∈ seen) →
  (∀ fld, NoDup (default [] (dict_get fld fields))) →
  (∀ fld v, v ∈ default [] (dict_get fld fields) ↔ (fld, v) ∈ seen) →
  NoDup fields'.*1
  ∧ (∀ fld, fld ∈ fields'.*1 ↔ ∃ v, (fld, v) ∈ seen ++ items)
  ∧ (∀ fld, NoDup (default [] (dict_get fld fields')))
  ∧ (∀ fld v, v ∈ default [] (dict_get fld fields') ↔ (fld, v) ∈ seen ++ items).
Proof.
  revert seen fields. induction items as [|[f x] items IH];
    intros seen fields; simpl.
  - intros [= <-]. rewrite app_nil_r. done.
  - unfold mbind, Exc_bind.
    destruct (ManualVerificationView.values_add x _) as [?|vs] eqn:Hadd;
      [done|].
    cbn. intros Hfold Hnd Hkeys Hndv Hval.
    apply values_add_elem in Hadd as (Hh & Hvs & Hin); [|apply Hndv].
    replace (seen ++ (f, x) :: items) with ((seen ++ [(f, x)]) ++ items)
      by (by rewrite <-app_assoc).
    apply (IH _ _ Hfold).
    + by apply dict_set_NoDup.
    + intros fld. rewrite dict_set_keys, Hkeys. split.
      * intros [->|[v Hv]]; [exists x|exists v]; apply elem_of_app;
          [right; left|by left].
      * intros [v [Hv|Hv%list_elem_of_singleton]%elem_of_app]; [eauto|].
        injection Hv as -> _. by left.
    + intros fld. destruct (decide (f = fld)) as [->|Hne].
      * by rewrite dict_get_set_eq.
      * rewrite dict_get_set_ne by done. apply Hndv.
    + intros fld v. rewrite elem_of_app, list_elem_of_singleton.
      destruct (decide (f = fld)) as [->|Hne].
      * rewrite dict_get_set_eq. simpl. rewrite Hin, Hval. split.
        -- intros [->|]; [by right|by left].
        -- intros [|[= ->]]; [by right|by left].
      * rewrite dict_get_set_ne by done. rewrite Hval. split; [by left|].
        intros [|[= ? ?]]; [done|]. by destruct Hne.
Qed.

(** When [entries_data] returns, it holds exactly the field names that
    occur in the entries, and under each name exactly the values submitted
    for it, each once. *)
Theorem entries_data_distinct_values
    (es : list Entry) (fields : list (string * list value)) :
  ManualVerificationView.entries_data es = inr fields →
  NoDup fields.*1
  ∧ (∀ fld, fld ∈ fields.*1 ↔ ∃ e v, e ∈ es ∧ (fld, v) ∈ data e)
  ∧ (∀ fld, NoDup (default [] (dict_get fld fields)))
  ∧ (∀ fld v, v ∈ default [] (dict_get fld fields)
              ↔ ∃ e, e ∈ es ∧ (fld, v) ∈ data e).
Proof.
  unfold ManualVerificationView.entries_data.
  assert (Hgen : ∀ es seen fields0 fields',
    foldE (λ e fs, foldE ManualVerificationView.add_field (data e) fs)
      es fields0 = inr fields' →
    NoDup fields0.*1 →
    (∀ fld, fld ∈ fields0.*1 ↔ ∃ v, (fld, v) ∈ seen) →
    (∀ fld, NoDup (default [] (dict_get fld fields0))) →
    (∀ fld v, v ∈ default [] (dict_get fld fields0) ↔ (fld, v) ∈ seen) →
    NoDup fields'.*1
    ∧ (∀ fld, fld ∈ fields'.*1 ↔ ∃ v, (fld, v) ∈ seen ++ concat (data <$> es))
    ∧ (∀ fld, NoDup (default [] (dict_get fld fields')))
    ∧ (∀ fld v, v ∈ default [] (dict_get fld fields')
                ↔ (fld, v) ∈ seen ++ concat (data <$> es))).
  { clear es fields. induction es as [|e es IH]; intros seen fields0 fields'; simpl.
    - intros [= <-]. rewrite app_nil_r. done.
    - destruct (foldE ManualVerificationView.add_field (data e) fields0)
        as [?|fields1] eqn:He; [done|].
      intros Hfold H1 H2 H3 H4.
      destruct (add_fields_invariant _ seen _ _ He H1 H2 H3 H4)
        as (H1' & H2' & H3' & H4').
      rewrite app_assoc. by apply (IH _ _ _ Hfold). }
  intros Hfold.
  destruct (Hgen es [] [] fields Hfold) as (H1 & H2 & H3 & H4).
  - constructor.
  - intros fld. simpl. split; [by intros ?%elem_of_nil|].
    by intros [v ?%elem_of_nil].
  - intros fld. simpl. constructor.
  - intros fld v. simpl. by rewrite !elem_of_nil.
  - assert (Hcat : ∀ fld v, (fld, v) ∈ [] ++ concat (data <$> es)
               ↔ ∃ e, e ∈ es ∧ (fld, v) ∈ data e).
    { intros fld v. simpl. clear. induction es as [|e es IH]; simpl.
      - rewrite elem_of_nil. split; [done|]. by intros (e & ?%elem_of_nil & _).
      - rewrite elem_of_app, IH. split.
        + intros [?|(e' & ? & ?)]; [exists e|exists e'];
            (split; [|done]); [left|by right].
        + intros (e' & [->|?]%elem_of_cons & ?); [by left|right; eauto]. }
    split_and!; [done| |done|].
    + intros fld. rewrite H2. split.
      * intros [v Hv]. apply Hcat in Hv as (e & ? & ?). eauto.
      * intros (e & v & ? & ?). exists v. apply Hcat. eauto.
    + intros fld v. by rewrite H4, Hcat.
Qed.

Lemma entries_data_distinct_values_witness :
  NoDup [("total", [VStr "12"; VStr "13"])].*1
  ∧ (∀ fld, fld ∈ [("total", [VStr "12"; VStr "13"])].*1
            ↔ ∃ e v, e ∈ entries demo_world ∧ (fld, v) ∈ data e)
  ∧ (∀ fld, NoDup (default [] (dict_get fld [("total", [VStr "12"; VStr "13"])])))
  ∧ (∀ fld v, v ∈ default [] (dict_get fld [("total", [VStr "12"; VStr "13"])])
              ↔ ∃ e, e ∈ entries demo_world ∧ (fld, v) ∈ data e).
Proof.
  apply (entries_data_distinct_values (entries demo_world)
           [("total", [VStr "12"; VStr "13"])]).
  reflexivity.
Defined.

(** ** Development mode: the rotation over the defined tasks *)

Lemma successive_app {T A} (f : T → T * A) (j k : nat) (s : T) :
  Serving.successive f (j + k) s =
    let '(l1, s1) := Serving.successive f j s in
    let '(l2, s2) := Serving.successive f k s1 in
    (l1 ++ l2, s2).
Proof.
  revert s. induction j as [|j IH]; intros s; simpl.
  - by destruct (Serving.successive f k s).
  - destruct (f s) as [s1 a]. rewrite IH.
    destruct (Serving.successive f j s1) as [l1 s2].
    by destruct (Serving.successive f k s2).
Qed.

Lemma rotate_step (app : Serving.App) (s : Serving.St) (c : nat) (t : string) :
  Serving.TASK_TYPES app !! c = Some t →
  Serving.next_counter (length (Serving.TASK_TYPES app))
    (Serving.mocked_task_counter s) = c →
  Serving.get_random_mocked_task_data app None None s
  = (Serving.with_counter c s, Serving.mocked_task app t).
Proof.
  intros Ht Hc. unfold Serving.get_random_mocked_task_data.
  rewrite bool_decide_eq_false_2.
  - by rewrite Hc, Ht.
  - intros Hnil. by rewrite Hnil in Ht.
Qed.

Lemma rotate_run (app : Serving.App) (j : nat) (s : Serving.St) :
  (Serving.mocked_task_counter s + j < length (Serving.TASK_TYPES app))%nat →
  Serving.successive (Serving.get_random_mocked_task_data app None None) j s
  = (Serving.mocked_task app
       <$> take j (drop (S (Serving.mocked_task_counter s))
                     (Serving.TASK_TYPES app)),
     Serving.with_counter (Serving.mocked_task_counter s + j) s).
Proof.
  revert s. induction j as [|j IH]; intros s Hlt; simpl.
  - rewrite Nat.add_0_r. by destruct s.
  - destruct (lookup_lt_is_Some_2 (Serving.TASK_TYPES app)
                (S (Serving.mocked_task_counter s))) as [t Ht]; [lia|].
    rewrite (rotate_step app s _ t Ht).
    + rewrite IH by (simpl; lia). simpl.
      rewrite (drop_S _ _ _ Ht). simpl.
      f_equal. unfold Serving.with_counter. simpl. f_equal. lia.
    + unfold Serving.next_counter. rewrite bool_decide_eq_false_2; [done|lia].
Qed.

(** With no task type asked for, as many Serving.successive requests as there are
    defined task types ask for each of them once, in the order of the
    registry, starting after the one served last and wrapping around; the
    counter then is where it was.  The first defined type is therefore the
    last one of the first round.  Whether a task object could be made for a
    type has no part in it: the counter moves before the class is looked
    up. *)
Theorem mocked_tasks_rotate (app : Serving.App) (s : Serving.St) :
  (Serving.mocked_task_counter s < length (Serving.TASK_TYPES app))%nat →
  Serving.successive (Serving.get_random_mocked_task_data app None None)
    (length (Serving.TASK_TYPES app)) s
  = (Serving.mocked_task app
       <$> (drop (S (Serving.mocked_task_counter s)) (Serving.TASK_TYPES app)
            ++ take (S (Serving.mocked_task_counter s)) (Serving.TASK_TYPES app)),
     s)
  ∧ (Serving.successive (Serving.get_random_mocked_task_data app None None)
       (length (Serving.TASK_TYPES app)) s).1
    ≡ₚ Serving.mocked_task app <$> Serving.TASK_TYPES app.
Proof.
  intros Hlt.
  set (n := length (Serving.TASK_TYPES app)) in *.
  set (c := Serving.mocked_task_counter s) in *.
  assert (Heq : Serving.successive (Serving.get_random_mocked_task_data app None None) n s
    = (Serving.mocked_task app
         <$> (drop (S c) (Serving.TASK_TYPES app)
              ++ take (S c) (Serving.TASK_TYPES app)), s)).
  { replace n with ((n - 1 - c) + (1 + c))%nat at 1 by lia.
    rewrite successive_app, rotate_run by (fold c n; lia).
    fold c. rewrite (successive_app _ 1 c).
    destruct (lookup_lt_is_Some_2 (Serving.TASK_TYPES app) 0) as [t Ht];
      [fold n; lia|].
    cbn [Serving.successive].
    rewrite (rotate_step app _ 0%nat t Ht).
    2:{ unfold Serving.next_counter. simpl. fold n.
        rewrite bool_decide_eq_true_2; [done|lia]. }
    rewrite rotate_run by (simpl; fold n; lia). simpl.
    f_equal.
    - rewrite take_ge by (rewrite length_drop; fold n; lia).
      rewrite fmap_app. f_equal.
      destruct (Serving.TASK_TYPES app) as [|t' l]; [done|].
      simpl in Ht. injection Ht as ->. simpl. by rewrite drop_0.
    - unfold Serving.with_counter. simpl. destruct s. simpl in *. by subst c. }
  split; [done|]. rewrite Heq. simpl.
  apply fmap_Permutation. rewrite Permutation_app_comm.
  by rewrite take_drop.
Qed.

Lemma mocked_tasks_rotate_witness :
  Serving.successive (Serving.get_random_mocked_task_data demo_app None None)
    (length (Serving.TASK_TYPES demo_app)) demo_state
  = (Serving.mocked_task demo_app
       <$> (drop (S (Serving.mocked_task_counter demo_state))
              (Serving.TASK_TYPES demo_app)
            ++ take (S (Serving.mocked_task_counter demo_state))
                 (Serving.TASK_TYPES demo_app)),
     demo_state)
  ∧ (Serving.successive (Serving.get_random_mocked_task_data demo_app None None)
       (length (Serving.TASK_TYPES demo_app)) demo_state).1
    ≡ₚ Serving.mocked_task demo_app <$> Serving.TASK_TYPES demo_app.
Proof.
  apply (mocked_tasks_rotate demo_app demo_state). simpl. lia.
Defined.

(** ** [TaskView.get] *)

Lemma update_cons {V} (k : string) (v : V) (items d : list (string * V)) :
  Serving.update ((k, v) :: items) d = Serving.update items (dict_set k v d).
Proof. done. Qed.

Lemma choose_a_task_empty (u : Z) (r : nat) (w : World) :
  TaskView.top_tasks w u = [] →
  TaskView.choose_a_task u r w = (w, inl NoTasksLeft).
Proof.
  intros Hnil. unfold TaskView.choose_a_task, query, mbind, M_bind.
  by rewrite Hnil.
Qed.

Lemma choose_a_task_keeps_world (u : Z) (r : nat) (w : World) :
  (TaskView.choose_a_task u r w).1 = w.
Proof.
  unfold TaskView.choose_a_task, query, mbind, M_bind.
  destruct (bool_decide _); [done|].
  by destruct (TaskView.random_choice _ _).
Qed.

(** Outside the development mode, when no open task is left that the user
    has not entered, [get] answers with the page
    error-messages/no-tasks.html, whose context carries the error flag, the
    message and the template and no task; the store and the rotation
    counter are as before. *)
Theorem get_without_tasks_renders_error
    (app : Serving.App) (GET_task_type : option string) (u : Z) (r : nat)
    (s : Serving.St) (base : Serving.context) :
  Serving.DEV_ROTATE_TASKS app = false →
  TaskView.top_tasks (Serving.world s) u = [] →
  Serving.super_get_context_data app
    (Serving.set_error "Task Chooser returned no tasks"
       "error-messages/no-tasks.html" (Serving.self s)) = inr base →
  ∃ s' ctx,
    Serving.get app GET_task_type u r s
    = (s', inr (Serving.TemplateResponse "error-messages/no-tasks.html" ctx))
    ∧ Serving.world s' = Serving.world s
    ∧ Serving.mocked_task_counter s' = Serving.mocked_task_counter s
    ∧ Serving.task_type (Serving.self s') = None
    ∧ dict_get "error" ctx = Some (Serving.CBool true)
    ∧ dict_get "message" ctx
      = Some (Serving.CStr "Task Chooser returned no tasks")
    ∧ dict_get "template" ctx
      = Some (Serving.CStr "error-messages/no-tasks.html")
    ∧ dict_get "task" ctx = dict_get "task" base
    ∧ dict_get "presenter" ctx = dict_get "presenter" base.
Proof.
  intros Hdev Hnil Hbase.
  unfold Serving.get.
  assert (Htry : Serving.get_try app GET_task_type u r s
                 = (s, inl (Serving.Raised NoTasksLeft))).
  { unfold Serving.get_try, Serving._get_task. rewrite Hdev.
    unfold mbind, Serving.VM_bind, Serving.lift.
    rewrite (choose_a_task_empty _ _ _ Hnil). by destruct s. }
  rewrite Htry.
  unfold Serving.get_context_data, Serving.render_to_response,
    Serving.get_self, Serving.pure, mbind, Serving.VM_bind, mret,
    Serving.VM_ret.
  cbn [Serving.self Serving.with_self Serving.world
       Serving.mocked_task_counter].
  rewrite Hbase.
  cbn [Serving.set_error Serving.task_type Serving.template_name
       Serving.error_message Serving.error_template Serving.opt_str
       from_option].
  eexists _, _. split; [reflexivity|].
  rewrite !update_cons. unfold Serving.update. cbn [foldl].
  split_and!; try done.
  - rewrite dict_get_set_ne, dict_get_set_ne by done.
    by rewrite dict_get_set_eq.
  - rewrite dict_get_set_ne by done. by rewrite dict_get_set_eq.
  - by rewrite dict_get_set_eq.
  - by rewrite !dict_get_set_ne.
  - by rewrite !dict_get_set_ne.
Qed.

Lemma get_without_tasks_renders_error_witness :
  ∃ s' ctx,
    Serving.get demo_app None 7 0 quiet_state
    = (s', inr (Serving.TemplateResponse "error-messages/no-tasks.html" ctx))
    ∧ Serving.world s' = Serving.world quiet_state
    ∧ Serving.mocked_task_counter s' = Serving.mocked_task_counter quiet_state
    ∧ Serving.task_type (Serving.self s') = None
    ∧ dict_get "error" ctx = Some (Serving.CBool true)
    ∧ dict_get "message" ctx
      = Some (Serving.CStr "Task Chooser returned no tasks")
    ∧ dict_get "template" ctx
      = Some (Serving.CStr "error-messages/no-tasks.html")
    ∧ dict_get "task" ctx
      = dict_get "task" [("view", Serving.COther "TaskView")]
    ∧ dict_get "presenter" ctx
      = dict_get "presenter" [("view", Serving.COther "TaskView")].
Proof.
  apply (get_without_tasks_renders_error demo_app None 7 0 quiet_state
           [("view", Serving.COther "TaskView")]);
    reflexivity.
Defined.

Lemma configure_template_and_form_inr (s s1 : Serving.St) :
  Serving.configure_template_and_form s = (s1, inr ()) →
  Serving.task_type (Serving.self s1) = Serving.task_type (Serving.self s)
  ∧ Serving.falsy (Serving.template_name (Serving.self s1)) = false
  ∧ Serving.world s1 = Serving.world s
  ∧ Serving.mocked_task_counter s1 = Serving.mocked_task_counter s.
Proof.
  unfold Serving.configure_template_and_form, Serving.get_self,
    Serving.modify_self, Serving.vraise, mbind, Serving.VM_bind, mret,
    Serving.VM_ret.
  destruct s as [w c v]. cbn [Serving.self].
  destruct (Serving.task_type v) as [[? ? [n|] ? ? ? ? ?]|] eqn:Ht;
    cbn [Serving.with_self Serving.self Serving.world
         Serving.mocked_task_counter];
    match goal with
    | |- context [Serving.falsy ?x] => destruct (Serving.falsy x) eqn:Hf
    end; intros [= <-]; cbn; try rewrite Ht; done.
Qed.

Lemma configure_template_and_form_inl (s s1 : Serving.St) (e : Serving.view_exn) :
  Serving.configure_template_and_form s = (s1, inl e) →
  ∃ k, e = Serving.TaskMustSetTemplate k.
Proof.
  unfold Serving.configure_template_and_form, Serving.get_self,
    Serving.modify_self, Serving.vraise, mbind, Serving.VM_bind, mret,
    Serving.VM_ret.
  destruct s as [w c v]. cbn [Serving.self].
  destruct (Serving.task_type v) as [[? ? [n|] ? ? ? ? ?]|] eqn:Ht;
    cbn [Serving.with_self Serving.self Serving.world
         Serving.mocked_task_counter];
    match goal with
    | |- context [Serving.falsy ?x] => destruct (Serving.falsy x) eqn:Hf
    end; intros [= <- <-]; eauto.
Qed.

Lemma get_try_inr (app : Serving.App) (GET_task_type : option string)
    (u : Z) (r : nat) (s s1 : Serving.St) :
  Serving.get_try app GET_task_type u r s = (s1, inr ()) →
  ∃ st t,
    Serving._get_task app GET_task_type u r None s = (st, inr t)
    ∧ Serving.task_type (Serving.self s1) = Some t
    ∧ Serving.falsy (Serving.template_name (Serving.self s1)) = false
    ∧ Serving.world s1 = Serving.world st
    ∧ Serving.mocked_task_counter s1 = Serving.mocked_task_counter st.
Proof.
  unfold Serving.get_try. unfold mbind at 1. unfold Serving.VM_bind at 1.
  destruct (Serving._get_task app GET_task_type u r None s) as [st [e|t]];
    [done|].
  unfold mbind, Serving.VM_bind, Serving.modify_self.
  intros (Ht & Hf & Hw & Hc)%configure_template_and_form_inr.
  exists st, t. by destruct st.
Qed.

Lemma get_try_inl (app : Serving.App) (GET_task_type : option string)
    (u : Z) (r : nat) (s s1 : Serving.St) (e : Serving.view_exn) :
  Serving.get_try app GET_task_type u r s = (s1, inl e) →
  Serving._get_task app GET_task_type u r None s = (s1, inl e)
  ∨ ∃ k, e = Serving.TaskMustSetTemplate k.
Proof.
  unfold Serving.get_try. unfold mbind at 1. unfold Serving.VM_bind at 1.
  destruct (Serving._get_task app GET_task_type u r None s) as [st [e'|t]].
  - intros [= <- <-]. by left.
  - unfold mbind, Serving.VM_bind, Serving.modify_self.
    intros ?%configure_template_and_form_inl. by right.
Qed.

Lemma falsy_false (n : option string) :
  Serving.falsy n = false → ∃ tpl, n = Some tpl ∧ tpl ≠ "".
Proof. destruct n as [[|a tpl]|]; [done| |done]. intros _. by eexists. Qed.

(** A response of [get] is either the page of a task, and then
    [_get_task] returned that task, its presenter could be read, and the
    context carries both; or one of the two error pages, and then
    [_get_task] raised the exception the page stands for.  In both cases
    the template has a name. *)
Theorem get_response_has_presenter_or_error
    (app : Serving.App) (GET_task_type : option string) (u : Z) (r : nat)
    (s s' : Serving.St) (resp : Serving.response) :
  Serving.get app GET_task_type u r s = (s', inr resp) →
  ∃ tpl ctx,
    resp = Serving.TemplateResponse tpl ctx
    ∧ tpl ≠ ""
    ∧ Serving.template_name (Serving.self s') = Some tpl
    ∧ ((∃ t p,
          (Serving._get_task app GET_task_type u r None s).2 = inr t
          ∧ Serving.task_type (Serving.self s') = Some t
          ∧ Serving.get_presenter t = inr p
          ∧ dict_get "task" ctx = Some (Serving.CTask t)
          ∧ dict_get "presenter" ctx = Some (Serving.CPresenter p))
       ∨ (Serving.task_type (Serving.self s') = None
          ∧ dict_get "error" ctx = Some (Serving.CBool true)
          ∧ (((Serving._get_task app GET_task_type u r None s).2
              = inl (Serving.Raised NoTasksLeft)
              ∧ tpl = "error-messages/no-tasks.html")
             ∨ ((Serving._get_task app GET_task_type u r None s).2
                = inl Serving.PresenterNotDefined
                ∧ tpl = "error-messages/presenter-not-defined.html")))).
Proof.
  unfold Serving.get.
  destruct (Serving.get_try app GET_task_type u r s) as [s1 [e|[]]] eqn:Htry.
  - assert (Hfinish : ∀ message template,
      template ≠ "" →
      (Serving._get_task app GET_task_type u r None s).2 = inl e →
      (ctx ← Serving.get_context_data app; Serving.render_to_response ctx)
        (Serving.with_self
           (Serving.set_error message template (Serving.self s1)) s1)
      = (s', inr resp) →
      ∃ tpl ctx,
        resp = Serving.TemplateResponse tpl ctx ∧ tpl ≠ ""
        ∧ Serving.template_name (Serving.self s') = Some tpl
        ∧ Serving.task_type (Serving.self s') = None
        ∧ dict_get "error" ctx = Some (Serving.CBool true)
        ∧ tpl = template).
    { intros message template Hne _.
      unfold Serving.get_context_data, Serving.render_to_response,
        Serving.get_self, Serving.pure, Serving.vraise, mbind,
        Serving.VM_bind, mret, Serving.VM_ret.
      cbn [Serving.self Serving.with_self Serving.set_error
           Serving.task_type Serving.template_name].
      destruct (Serving.super_get_context_data app _) as [?|base]; [done|].
      intros [= <- <-]. eexists _, _. split_and!; try done.
      rewrite dict_get_set_ne, dict_get_set_ne by done.
      by rewrite dict_get_set_eq. }
    apply get_try_inl in Htry as [Hget|[k ->]]; [|done].
    destruct e as [[]| | | |]; try done; intros Hrun;
      (apply Hfinish in Hrun; [|done|by rewrite Hget]);
      destruct Hrun as (tpl & ctx & -> & ? & ? & ? & ? & ->);
      eexists _, ctx; (split; [reflexivity|]); split_and!; try done;
      right; split_and!; try done.
    + left. by rewrite Hget.
    + right. by rewrite Hget.
  - apply get_try_inr in Htry as (st & t & Hget & Ht & Hf & _).
    apply falsy_false in Hf as (tpl & Htpl & Hne).
    unfold Serving.get_context_data, Serving.render_to_response,
      Serving.get_self, Serving.pure, Serving.vraise, mbind,
      Serving.VM_bind, mret, Serving.VM_ret.
    rewrite Ht.
    destruct (Serving.super_get_context_data app _) as [?|base]; [done|].
    destruct (Serving.get_presenter t) as [[[]| | | |]|p] eqn:Hp; try done.
    rewrite Htpl. intros [= <- <-].
    eexists _, _. split_and!; try done. left. exists t, p.
    rewrite Hget. split_and!; try done.
    + rewrite dict_get_set_ne by done. by rewrite dict_get_set_eq.
    + by rewrite dict_get_set_eq.
Qed.

Lemma get_response_has_presenter_or_error_witness :
  ∃ tpl ctx,
    demo_response = Serving.TemplateResponse tpl ctx
    ∧ tpl ≠ ""
    ∧ Serving.template_name
        (Serving.self (Serving.get demo_app None 7 0 demo_state).1) = Some tpl
    ∧ ((∃ t p,
          (Serving._get_task demo_app None 7 0 None demo_state).2 = inr t
          ∧ Serving.task_type
              (Serving.self (Serving.get demo_app None 7 0 demo_state).1)
            = Some t
          ∧ Serving.get_presenter t = inr p
          ∧ dict_get "task" ctx = Some (Serving.CTask t)
          ∧ dict_get "presenter" ctx = Some (Serving.CPresenter p))
       ∨ (Serving.task_type
            (Serving.self (Serving.get demo_app None 7 0 demo_state).1) = None
          ∧ dict_get "error" ctx = Some (Serving.CBool true)
          ∧ (((Serving._get_task demo_app None 7 0 None demo_state).2
              = inl (Serving.Raised NoTasksLeft)
              ∧ tpl = "error-messages/no-tasks.html")
             ∨ ((Serving._get_task demo_app None 7 0 None demo_state).2
                = inl Serving.PresenterNotDefined
                ∧ tpl = "error-messages/presenter-not-defined.html")))).
Proof.
  apply (get_response_has_presenter_or_error demo_app None 7 0 demo_state
           (Serving.get demo_app None 7 0 demo_state).1 demo_response).
  reflexivity.
Defined.

(** When the task that [_get_task] returned has a presenter whose reading
    raises [TypeError], [get] gives no response at all, and so not the
    page error-messages/presenter-not-defined.html either: the exception
    [PresenterNotDefined] that [get_context_data] raises is raised after
    the [try] statement of [get] and leaves [get], unless the template
    check or the context of the framework raised before it. *)
Theorem get_presenter_type_error_is_raised
    (app : Serving.App) (GET_task_type : option string) (u : Z) (r : nat)
    (s st : Serving.St) (t : Serving.TaskObject) (msg : string) :
  Serving._get_task app GET_task_type u r None s = (st, inr t) →
  Serving.get_presenter t = inl (Serving.Raised (TypeError msg)) →
  ∃ e,
    (Serving.get app GET_task_type u r s).2 = inl e
    ∧ (e = Serving.PresenterNotDefined
       ∨ (∃ k, e = Serving.TaskMustSetTemplate k)
       ∨ (∃ v, Serving.super_get_context_data app v = inl e)).
Proof.
  intros Hget Hp. unfold Serving.get.
  destruct (Serving.get_try app GET_task_type u r s) as [s1 [e|[]]] eqn:Htry.
  - apply get_try_inl in Htry as [Hget'|[k ->]].
    + rewrite Hget in Hget'. done.
    + exists (Serving.TaskMustSetTemplate k). split; [done|].
      right. left. by exists k.
  - apply get_try_inr in Htry as (st' & t' & Hget' & Ht & Hf & _).
    rewrite Hget in Hget'. injection Hget' as <- <-.
    apply falsy_false in Hf as (tpl & Htpl & Hne).
    unfold Serving.get_context_data, Serving.render_to_response,
      Serving.get_self, Serving.pure, Serving.vraise, mbind,
      Serving.VM_bind, mret, Serving.VM_ret.
    rewrite Ht.
    destruct (Serving.super_get_context_data app _) as [e|base] eqn:Hsuper.
    + exists e. split; [done|]. right. right. eauto.
    + rewrite Hp. exists Serving.PresenterNotDefined. split; [done|]. by left.
Qed.

Lemma get_presenter_type_error_is_raised_witness :
  ∃ e,
    (Serving.get demo_app None 8 1 demo_state).2 = inl e
    ∧ (e = Serving.PresenterNotDefined
       ∨ (∃ k, e = Serving.TaskMustSetTemplate k)
       ∨ (∃ v, Serving.super_get_context_data demo_app v = inl e)).
Proof.
  apply (get_presenter_type_error_is_raised demo_app None 8 1 demo_state
           demo_state (find_table_task (Serving.Stored task1))
           "'NoneType' object is not subscriptable");
    reflexivity.
Defined.

(** ** [TaskView.post] and [TaskView._save_entry] *)

Lemma Task_get_keeps_world (pk : Z) (w : World) : (Task_get pk w).1 = w.
Proof. unfold Task_get. by destruct (List.find _ _). Qed.

Lemma _get_task_keeps_world (app : Serving.App) (GET_task_type : option string)
    (u : Z) (r : nat) (task_id : option string) (s : Serving.St) :
  Serving.world (Serving._get_task app GET_task_type u r task_id s).1
  = Serving.world s
  ∧ Serving.self (Serving._get_task app GET_task_type u r task_id s).1
    = Serving.self s.
Proof.
  unfold Serving._get_task. destruct (Serving.DEV_ROTATE_TASKS app).
  - unfold Serving.get_random_mocked_task_data.
    repeat case_match; done.
  - unfold mbind, Serving.VM_bind, Serving.pure, Serving.lift.
    destruct task_id as [task_id|].
    + unfold Serving.Task_get_pk.
      destruct (py_int task_id) as [e|pk]; [done|].
      pose proof (Task_get_keeps_world pk (Serving.world s)) as Hw.
      destruct (Task_get pk (Serving.world s)) as [w [e|t]];
        simpl in *; by subst.
    + pose proof (choose_a_task_keeps_world u r (Serving.world s)) as Hw.
      destruct (TaskView.choose_a_task u r (Serving.world s)) as [w [e|t]];
        simpl in *; by subst.
Qed.

Lemma _get_task_creates (app : Serving.App) (GET_task_type : option string)
    (u : Z) (r : nat) (task_id : option string) (s st : Serving.St)
    (t : Serving.TaskObject) :
  Serving._get_task app GET_task_type u r task_id s = (st, inr t) →
  ∃ row, Serving.create_task_instance app row = inr t.
Proof.
  unfold Serving._get_task. destruct (Serving.DEV_ROTATE_TASKS app).
  - unfold Serving.get_random_mocked_task_data, Serving.mocked_task.
    repeat case_match; intros [= <- ?]; try done; eauto.
  - unfold mbind, Serving.VM_bind, Serving.pure.
    destruct task_id as [task_id|];
      match goal with
      | |- context [Serving.lift ?m s] =>
          destruct (Serving.lift m s) as [s1 [e|task]]
      end; try done; intros [= <- ?]; eauto.
Qed.

(** A POST for a task definition without a form whose field names
    [unpack_post] refuses, or whose normalisation fails in any other way,
    leaves the store as it was and is never answered by a redirect: the
    entry is made only after the normalisation. *)
Theorem post_rejected_fields_store_nothing `{Dpath}
    (app : Serving.App) (hash : path → nat) (GET_task_type : option string)
    (u : Z) (r : nat) (POST : QueryDict) (s : Serving.St) (e : exn) :
  unpack_post hash POST = inl e →
  (∀ row t, Serving.create_task_instance app row = inr t →
            Serving.task_form t = None) →
  Serving.world (Serving.post app hash GET_task_type u r POST s).1
  = Serving.world s
  ∧ ∀ url, (Serving.post app hash GET_task_type u r POST s).2
           ≠ inr (Serving.Redirect url).
Proof.
  intros He Hform.
  destruct (Serving.post app hash GET_task_type u r POST s) as [s' res]
    eqn:Hpost.
  cbn [fst snd]. revert Hpost. unfold Serving.post.
  destruct (negb (contains POST "_task_id")); [by intros [= <- <-]|].
  destruct (negb (contains POST "_task_type")); [by intros [= <- <-]|].
  unfold mbind at 1. unfold Serving.VM_bind at 1.
  unfold Serving.raised at 1.
  destruct (Serving.QueryDict_getitem POST "_task_id") as [?|task_id];
    [by intros [= <- <-]|].
  unfold mbind at 1. unfold Serving.VM_bind at 1.
  destruct (_get_task_keeps_world app GET_task_type u r (Some task_id) s)
    as [Hw Hv].
  destruct (Serving._get_task app GET_task_type u r (Some task_id) s)
    as [st [?|t]] eqn:Hget; simpl in Hw, Hv; [by intros [= <- <-]|].
  apply _get_task_creates in Hget as [row Hrow].
  apply Hform in Hrow.
  unfold mbind at 1. unfold Serving.VM_bind at 1.
  unfold Serving.modify_self at 1.
  unfold mbind at 1. unfold Serving.VM_bind at 1.
  destruct (Serving.configure_template_and_form _) as [s1 [?|[]]] eqn:Hconf.
  - intros [= <- <-]. split; [|done].
    revert Hconf. unfold Serving.configure_template_and_form,
      Serving.get_self, Serving.modify_self, Serving.vraise, mbind,
      Serving.VM_bind, mret, Serving.VM_ret.
    cbn [Serving.self Serving.with_self Serving.set_task_type
         Serving.task_type].
    destruct t as [? ? [n|] ? ? ? ? ?];
      cbn [Serving.with_self Serving.self Serving.world
           Serving.mocked_task_counter Serving.set_template_name
           Serving.template_name];
      match goal with
      | |- context [Serving.falsy ?x] => destruct (Serving.falsy x)
      end; intros [= <-]; done.
  - apply configure_template_and_form_inr in Hconf as (Ht & _ & Hw1 & _).
    simpl in Ht, Hw1.
    unfold mbind at 1. unfold Serving.VM_bind at 1.
    unfold Serving.get_self at 1. rewrite Ht. simpl. rewrite Hrow.
    unfold mbind, Serving.VM_bind, Serving.raised. rewrite He.
    intros [= <- <-]. split; [congruence|done].
Qed.

Lemma post_rejected_fields_store_nothing_witness :
  Serving.world
    (Serving.post demo_app (λ _, 0%nat) None 7 0 bad_post demo_state).1
  = Serving.world demo_state
  ∧ ∀ url,
      (Serving.post demo_app (λ _, 0%nat) None 7 0 bad_post demo_state).2
      ≠ inr (Serving.Redirect url).
Proof.
  apply (post_rejected_fields_store_nothing demo_app (λ _, 0%nat) None 7 0
           bad_post demo_state (FieldNameNotValid "row[")).
  - reflexivity.
  - intros row t Ht. injection Ht as <-.
    destruct (decide (row_type row = "app.FindTable")); reflexivity.
Defined.

Lemma _get_task_stored (app : Serving.App) (GET_task_type : option string)
    (u : Z) (r : nat) (task_id : string) (s st : Serving.St)
    (t : Serving.TaskObject) :
  Serving.DEV_ROTATE_TASKS app = false →
  Serving._get_task app GET_task_type u r (Some task_id) s = (st, inr t) →
  ∃ task, task ∈ tasks (Serving.world s)
          ∧ py_int task_id = inr (id task)
          ∧ Serving.create_task_instance app (Serving.Stored task) = inr t.
Proof.
  intros Hdev. unfold Serving._get_task. rewrite Hdev.
  unfold mbind, Serving.VM_bind, Serving.pure, Serving.lift,
    Serving.Task_get_pk.
  destruct (py_int task_id) as [e|pk]; [done|].
  destruct (Task_get pk (Serving.world s)) as [w [e|task]] eqn:Hget; [done|].
  intros [= <- Ht]. exists task.
  destruct (Task_get_inr pk (Serving.world s) task) as [Hin <-];
    [by rewrite Hget|]. done.
Qed.

(** Outside the development mode, for task definitions without a form
    whose verification leaves the entry table alone: whenever [post]
    answers with a redirect, exactly one entry has been added to the
    store, for a task that exists and whose key is the hidden field
    [_task_id] read as an integer, by the requesting user, and holding the
    POST data as [unpack_post] normalises it. *)
Theorem post_redirect_means_entry_saved `{Dpath}
    (app : Serving.App) (hash : path → nat) (GET_task_type : option string)
    (u : Z) (r : nat) (POST : QueryDict) (s s' : Serving.St) (url : string) :
  Serving.DEV_ROTATE_TASKS app = false →
  (∀ row t, Serving.create_task_instance app row = inr t →
            Serving.task_form t = None
            ∧ ∀ task_id w,
                entries (Serving.verify_and_save t task_id w).1 = entries w) →
  Serving.post app hash GET_task_type u r POST s
  = (s', inr (Serving.Redirect url)) →
  ∃ task_id task data,
    last (getlist POST "_task_id") = Some task_id
    ∧ py_int task_id = inr (id task)
    ∧ task ∈ tasks (Serving.world s)
    ∧ unpack_post hash POST = inr data
    ∧ entries (Serving.world s')
      = entries (Serving.world s)
        ++ [{| task_id := id task; user := u; data := data;
               closed_manually := Serving.closed_manually_default app |}].
Proof.
  intros Hdev Happ. unfold Serving.post.
  destruct (negb (contains POST "_task_id")); [done|].
  destruct (negb (contains POST "_task_type")); [done|].
  unfold mbind at 1. unfold Serving.VM_bind at 1.
  unfold Serving.raised at 1, Serving.QueryDict_getitem.
  destruct (last (getlist POST "_task_id")) as [task_id|]; [|done].
  unfold mbind at 1. unfold Serving.VM_bind at 1.
  destruct (_get_task_keeps_world app GET_task_type u r (Some task_id) s)
    as [Hw Hv].
  destruct (Serving._get_task app GET_task_type u r (Some task_id) s)
    as [st [?|t]] eqn:Hget; simpl in Hw, Hv; [done|].
  apply _get_task_stored in Hget as (task & Hin & Hpk & Hrow); [|done].
  apply Happ in Hrow as [Hform Hverify].
  unfold mbind at 1. unfold Serving.VM_bind at 1.
  unfold Serving.modify_self at 1.
  unfold mbind at 1. unfold Serving.VM_bind at 1.
  destruct (Serving.configure_template_and_form _) as [s1 [?|[]]] eqn:Hconf;
    [done|].
  apply configure_template_and_form_inr in Hconf as (Ht & _ & Hw1 & _).
  simpl in Ht, Hw1.
  unfold mbind at 1. unfold Serving.VM_bind at 1.
  unfold Serving.get_self at 1. rewrite Ht. simpl. rewrite Hform.
  unfold mbind at 1. unfold Serving.VM_bind at 1.
  unfold Serving.raised at 1.
  destruct (unpack_post hash POST) as [?|data]; [done|].
  unfold Serving._save_entry. rewrite Hdev.
  unfold Serving.task_method, Serving.redirect_to_success_url,
    Serving.raised, Serving.lift, Serving.liftW, Serving.pure,
    Serving.get_self, Serving.vraise, mbind, Serving.VM_bind, mret,
    Serving.VM_ret.
  rewrite Hpk.
  cbn [Entry_save Serving.with_world Serving.self Serving.world].
  rewrite Ht.
  match goal with
  | |- context [Serving.verify_and_save t task_id ?w0] =>
      pose proof (Hverify task_id w0) as Hent;
      destruct (Serving.verify_and_save t task_id w0) as [w1 [?|[]]]
  end; [done|].
  destruct (Serving.reverse app "finish-transcription") as [?|link]; [done|].
  cbn [add_message Serving.with_world Serving.world].
  destruct (Serving.get_success_url app _) as [?|url']; [done|].
  intros [= <- <-]. exists task_id, task, data.
  split_and!; try done.
  cbn [Serving.world entries]. simpl in Hent. rewrite Hent.
  simpl. by rewrite Hw1, Hw.
Qed.

Lemma post_redirect_means_entry_saved_witness :
  ∃ task_id task data,
    last (getlist demo_post "_task_id") = Some task_id
    ∧ py_int task_id = inr (id task)
    ∧ task ∈ tasks (Serving.world demo_state)
    ∧ unpack_post (λ _, 0%nat) demo_post = inr data
    ∧ entries
        (Serving.world
           (Serving.post demo_app (λ _, 0%nat) None 7 0 demo_post
              demo_state).1)
      = entries (Serving.world demo_state)
        ++ [{| task_id := id task; user := 7; data := data;
               closed_manually :=
                 Serving.closed_manually_default demo_app |}].
Proof.
  apply (post_redirect_means_entry_saved demo_app (λ _, 0%nat) None 7 0
           demo_post demo_state
           (Serving.post demo_app (λ _, 0%nat) None 7 0 demo_post
              demo_state).1 "/task/").
  - reflexivity.
  - intros row t Ht. injection Ht as <-.
    destruct (decide (row_type row = "app.FindTable")); split; reflexivity.
  - reflexivity.
Defined.

(** ** The progress tree: when the loop goes through *)

Section progress_tree_exact.
Import DocumentListView.

Lemma add_task_nodes (t : Task) (s s' : tree_state) :
  add_task t s = inr s' →
  nodes s' = <[Some (id t) := length (heap s)]> (nodes s).
Proof. unfold add_task. case_match; [|done]. by intros [= <-]. Qed.

Lemma add_task_succeeds (t : Task) (s : tree_state) :
  (∃ s', add_task t s = inr s')
  ↔ parent_id t = Some (id t) ∨ is_Some (nodes s !! parent_id t).
Proof.
  unfold add_task.
  destruct (decide (parent_id t = Some (id t))) as [Heq|Hne].
  - rewrite Heq, lookup_insert_eq. split; [by left|eauto].
  - rewrite lookup_insert_ne by done.
    destruct (nodes s !! parent_id t) as [a|].
    + split; [by right|eauto].
    + split; [by intros [? ?]|]. by intros [?|[? ?]].
Qed.

Lemma add_task_error (t : Task) (s : tree_state) (e : exn) :
  add_task t s = inl e →
  is_Some (nodes s !! None) →
  ∃ p, parent_id t = Some p ∧ e = KeyError (py_str p).
Proof.
  unfold add_task. intros Hadd [a Ha].
  destruct (parent_id t) as [p|].
  - case_match; [done|]. injection Hadd as <-. eauto.
  - rewrite lookup_insert_ne, Ha in Hadd by done. done.
Qed.

Lemma fold_add_task_succeeds (ts : list Task) (s : tree_state) :
  (∃ s', foldE add_task ts s = inr s')
  ↔ ∀ i t, ts !! i = Some t →
      is_Some (nodes s !! parent_id t)
      ∨ ∃ j t', (j ≤ i)%nat ∧ ts !! j = Some t'
                ∧ parent_id t = Some (id t').
Proof.
  revert s. induction ts as [|t ts IH]; intros s; simpl.
  - split; [|eauto]. intros _ i t Hi. by rewrite lookup_nil in Hi.
  - split.
    + intros [s' Hfold].
      destruct (add_task t s) as [?|s1] eqn:Hadd; [done|].
      pose proof (add_task_nodes _ _ _ Hadd) as Hnodes.
      intros [|i] t0 Hi; simpl in Hi.
      * injection Hi as <-.
        destruct (proj1 (add_task_succeeds t s)) as [Hself|Hsome]; [eauto| |].
        -- right. exists 0%nat, t. by split_and!.
        -- by left.
      * destruct (proj1 (IH s1) (ex_intro _ s' Hfold) i t0 Hi)
          as [Hsome|(j & t' & Hj & Ht' & Hp)].
        -- rewrite Hnodes in Hsome.
           destruct (decide (parent_id t0 = Some (id t))) as [Heq|Hne].
           ++ right. exists 0%nat, t. split_and!; [lia|done|done].
           ++ rewrite lookup_insert_ne in Hsome by done. by left.
        -- right. exists (S j), t'. split_and!; [lia|done|done].
    + intros Hall.
      destruct (proj2 (add_task_succeeds t s)) as [s1 Hadd].
      { destruct (Hall 0%nat t eq_refl) as [?|(j & t' & Hj & Ht' & Hp)];
          [by right|].
        assert (j = 0)%nat as -> by lia. simpl in Ht'.
        injection Ht' as <-. by left. }
      rewrite Hadd. apply IH. intros i t0 Hi.
      rewrite (add_task_nodes _ _ _ Hadd).
      destruct (Hall (S i) t0 Hi) as [Hsome|(j & t' & Hj & Ht' & Hp)].
      * left. destruct (decide (parent_id t0 = Some (id t))) as [Heq|Hne].
        -- rewrite Heq, lookup_insert_eq. eauto.
        -- by rewrite lookup_insert_ne.
      * destruct j as [|j]; simpl in Ht'.
        -- injection Ht' as <-. left. rewrite Hp, lookup_insert_eq. eauto.
        -- right. exists j, t'. split_and!; [lia|done|done].
Qed.

Lemma fold_add_task_error (ts : list Task) (s : tree_state) (e : exn) :
  foldE add_task ts s = inl e →
  is_Some (nodes s !! None) →
  ∃ t p, t ∈ ts ∧ parent_id t = Some p ∧ e = KeyError (py_str p).
Proof.
  revert s. induction ts as [|t ts IH]; intros s; simpl; [done|].
  destruct (add_task t s) as [e'|s1] eqn:Hadd.
  - intros [= ->] Hroot.
    destruct (add_task_error _ _ _ Hadd Hroot) as (p & Hp & ->).
    exists t, p. split_and!; [left|done|done].
  - intros Hfold Hroot.
    destruct (IH s1 Hfold) as (t' & p & Hin & Hp & ->).
    { rewrite (add_task_nodes _ _ _ Hadd), lookup_insert_ne by done. done. }
    exists t', p. split_and!; [by right|done|done].
Qed.

(** With task keys that are unique, the loop over the tasks of a document
    goes through exactly when every parent named by one of them is a task
    of the same document whose key is not larger than that of the child (a
    task may name itself); otherwise the view raises [KeyError] with the
    key of a parent that one of the tasks names. *)
Theorem progress_tree_succeeds_iff (w : World) (doc : Z) :
  NoDup (id <$> tasks w) →
  ((∃ s, progress_tree w doc = inr s)
   ↔ ∀ t p, t ∈ tasks w → doc_id t = doc → parent_id t = Some p →
       p ≤ id t ∧ ∃ t', t' ∈ tasks w ∧ doc_id t' = doc ∧ id t' = p)
  ∧ ∀ e, progress_tree w doc = inl e →
      ∃ t p, t ∈ tasks w ∧ doc_id t = doc ∧ parent_id t = Some p
             ∧ e = KeyError (py_str p).
Proof.
  intros Hpk.
  assert (Hperm : tasks_of_document w doc
                  ≡ₚ filter (λ t, doc_id t = doc) (tasks w))
    by apply merge_sort_Permutation.
  assert (Hin : ∀ t, t ∈ tasks_of_document w doc
                     ↔ t ∈ tasks w ∧ doc_id t = doc).
  { intros t. rewrite Hperm, list_elem_of_filter. tauto. }
  assert (Hnd : NoDup (id <$> tasks_of_document w doc)).
  { rewrite Hperm. eapply sublist_NoDup; [exact Hpk|].
    apply fmap_sublist, sublist_filter. }
  assert (Hsorted : StronglySorted id_le (tasks_of_document w doc))
    by apply (StronglySorted_merge_sort _).
  assert (Hroot : ∀ k : option Z, is_Some (nodes initial !! k) ↔ k = None).
  { intros [p|]; simpl.
    - rewrite lookup_singleton_ne by done. split; [by intros [? ?]|done].
    - rewrite lookup_singleton_eq. split; [done|eauto]. }
  split; [|].
  - unfold progress_tree. rewrite fold_add_task_succeeds. split.
    + intros Hall t p Ht Hdoc Hp.
      pose proof (proj2 (Hin t) (conj Ht Hdoc)) as Hmem.
      apply list_elem_of_lookup_1 in Hmem as [i Hi].
      destruct (Hall i t Hi) as [Hsome|(j & t' & Hj & Ht' & Hp')].
      { apply Hroot in Hsome. congruence. }
      assert (p = id t') as -> by congruence.
      assert (t' ∈ tasks_of_document w doc) as Hin'
        by (eapply list_elem_of_lookup_2; eauto).
      apply Hin in Hin' as [? ?]. split; [|eauto].
      destruct (decide (j = i)) as [->|Hne]; [by simplify_eq|].
      eapply (StronglySorted_lookup_lt id_le _ j i); eauto. lia.
    + intros Hforest i t Hi.
      destruct (parent_id t) as [p|] eqn:Hp; [|left; by apply Hroot].
      right.
      assert (t ∈ tasks_of_document w doc) as Ht
        by (eapply list_elem_of_lookup_2; eauto).
      apply Hin in Ht as [Ht Hdoc].
      destruct (Hforest t p Ht Hdoc Hp) as (Hle & t' & Ht' & Hdoc' & Hid).
      pose proof (proj2 (Hin t') (conj Ht' Hdoc')) as Hmem.
      apply list_elem_of_lookup_1 in Hmem as [j Hj].
      exists j, t'. split_and!; [|done|by rewrite Hid].
      destruct (decide (j ≤ i)%nat) as [|Hgt]; [done|]. exfalso.
      assert (id_le t t') as Hle'.
      { eapply (StronglySorted_lookup_lt id_le _ i j); eauto. lia. }
      unfold id_le in Hle'. assert (id t = id t') as Heq by lia.
      assert (i = j); [|lia].
      eapply (NoDup_lookup (id <$> tasks_of_document w doc)); [done| |].
      * by rewrite list_lookup_fmap, Hi.
      * by rewrite list_lookup_fmap, Hj, Heq.
  - intros e He. unfold progress_tree in He.
    apply fold_add_task_error in He as (t & p & Ht & Hp & ->);
      [|by apply Hroot].
    apply Hin in Ht as [? ?]. eauto 10.
Qed.

End progress_tree_exact.

Lemma progress_tree_succeeds_iff_witness :
  ((∃ s, DocumentListView.progress_tree demo_world 1 = inr s)
   ↔ ∀ t p, t ∈ tasks demo_world → doc_id t = 1 → parent_id t = Some p →
       p ≤ id t ∧ ∃ t', t' ∈ tasks demo_world ∧ doc_id t' = 1 ∧ id t' = p)
  ∧ ∀ e, DocumentListView.progress_tree demo_world 1 = inl e →
      ∃ t p, t ∈ tasks demo_world ∧ doc_id t = 1 ∧ parent_id t = Some p
             ∧ e = KeyError (py_str p).
Proof.
  apply (progress_tree_succeeds_iff demo_world 1).
  apply (bool_decide_unpack _). vm_compute. exact I.
Defined.

(** ** The address of the user, and [task_name] *)

Lemma split_on_nonempty (sep : ascii) (s : string) : split_on sep s ≠ [].
Proof.
  destruct s as [|c s]; simpl; [done|].
  destruct (decide (c = sep)); [done|]. by destruct (split_on sep s).
Qed.

Lemma split_on_no_sep (sep : ascii) (s : string) :
  sep ∉ list_ascii_of_string s → split_on sep s = [s].
Proof.
  induction s as [|c s IH]; simpl; [done|].
  rewrite not_elem_of_cons. intros [Hc Hs].
  destruct (decide (c = sep)); [done|]. by rewrite IH.
Qed.

Lemma split_on_app (sep : ascii) (a b : string) :
  split_on sep (a +:+ String sep b) = split_on sep a ++ split_on sep b.
Proof.
  induction a as [|c a IH]; simpl.
  - by destruct (decide (sep = sep)).
  - rewrite IH. pose proof (split_on_nonempty sep a).
    destruct (decide (c = sep)); [done|]. by destruct (split_on sep a).
Qed.

Lemma last_split_on_app (sep : ascii) (a b : string) :
  last (split_on sep (a +:+ String sep b)) = last (split_on sep b).
Proof.
  rewrite split_on_app, last_app.
  pose proof (split_on_nonempty sep b) as Hne.
  destruct (split_on sep b) as [|p ps] using rev_ind; [done|].
  by rewrite last_snoc.
Qed.

Lemma last_split_on_no_sep (sep : ascii) (s piece : string) :
  last (split_on sep s) = Some piece → sep ∉ list_ascii_of_string piece.
Proof.
  revert piece. induction s as [|c s IH]; intros piece; simpl.
  - intros [= <-]. apply not_elem_of_nil.
  - pose proof (split_on_nonempty sep s) as Hne.
    destruct (decide (c = sep)).
    + destruct (split_on sep s) as [|p ps]; [done|]. apply IH.
    + destruct (split_on sep s) as [|p [|q ps]]; [done| |by apply IH].
      simpl. intros [= <-]. simpl. apply not_elem_of_cons. split; [done|].
      by apply IH.
Qed.










(** [task_name] returns what follows the last dot of its argument, the
    whole of it when there is no dot: the result holds no dot, and the
    filter applied twice is the filter applied once. *)
Theorem task_name_last_component (value : string) :
  (("."%char) ∉ list_ascii_of_string (task_name value))
  ∧ task_name (task_name value) = task_name value
  ∧ (∀ pre name, value = pre +:+ String "." name →
       ("."%char) ∉ list_ascii_of_string name → task_name value = name)
  ∧ (("."%char) ∉ list_ascii_of_string value → task_name value = value).
Proof.
  assert (Hno : ("."%char) ∉ list_ascii_of_string (task_name value)).
  { unfold task_name.
    destruct (last (split_on "." value)) as [piece|] eqn:Hlast.
    - by apply last_split_on_no_sep in Hlast.
    - apply not_elem_of_nil. }
  split_and!.
  - done.
  - unfold task_name at 1. by rewrite split_on_no_sep.
  - intros pre name -> Hname. unfold task_name.
    by rewrite last_split_on_app, split_on_no_sep.
  - intros Hvalue. unfold task_name. by rewrite split_on_no_sep.
Qed.

(** ** The normalizer on the reference model: the keys of the result *)

Lemma walk_selectors_marks_prefix (sels : list string) (p : path)
    (m : list path) (q : path) :
  q ∈ (walk_selectors sels p m).2 → q ∈ m ∨ p `prefix_of` q.
Proof.
  revert p m. induction sels as [|idx sels IH]; intros p m; simpl; [by left|].
  intros [Hq|Hq]%IH.
  - destruct (starts_with_digit idx); [|by left].
    apply elem_of_set_add in Hq as [->|Hq]; [by right|by left].
  - right. etrans; [|exact Hq]. by apply prefix_app_r.
Qed.

Lemma marks_of_nonempty (k : string) (q : path) : q ∈ marks_of k → q ≠ [].
Proof.
  unfold marks_of. destruct (field_name_match k) as [[[object sels] tr]|].
  - intros [Hq|[k' ->]]%walk_selectors_marks_prefix; [|done].
    by apply elem_of_nil in Hq.
  - by intros ?%elem_of_nil.
Qed.

Lemma ref_set_top_keys (d : dict) (q : path) (a : value) :
  q ≠ [] → (dict_of (ref_set (VDict d) q a)).*1 = d.*1.
Proof.
  destruct q as [|seg q]; [done|]. intros _. simpl.
  destruct (dict_get seg d) as [v|] eqn:Hget; [|done].
  simpl. by apply (dict_set_keys_same _ _ v).
Qed.

Lemma convert_to_array_top_keys (q : path) (r r' : dict) :
  q ≠ [] → convert_to_array (H := dpath_ref) q r = inr r' → r'.*1 = r.*1.
Proof.
  intros Hq. unfold convert_to_array, mbind, Exc_bind.
  destruct (dpath_get r q) as [?|d]; [done|].
  destruct (keys_of d) as [?|ks]; [done|].
  destruct (mapE py_int ks) as [?|numeric_keys]; [done|].
  destruct (mapE _ (merge_sort Z.le numeric_keys)) as [?|arr]; [done|].
  simpl. intros [= <-]. by apply ref_set_top_keys.
Qed.

Lemma convert_loop_top_keys (paths : list path) (r r' : dict) :
  (∀ q, q ∈ paths → q ≠ []) →
  foldE (convert_to_array (H := dpath_ref)) paths r = inr r' → r'.*1 = r.*1.
Proof.
  revert r. induction paths as [|q paths IH]; intros r Hne; simpl.
  - by intros [= <-].
  - destruct (convert_to_array q r) as [?|r1] eqn:Hc; [done|].
    intros Hfold. rewrite (IH r1); [|intros; apply Hne; by right|done].
    apply (convert_to_array_top_keys q); [|done]. apply Hne. by left.
Qed.

Lemma insert_field_top_keys (post : QueryDict) (k : string)
    (st st' : dict * list path) :
  insert_field (H := dpath_ref) post k st = inr st' →
  ∃ object sels trailing v,
    field_name_match k = Some (object, sels, trailing)
    ∧ st'.1 = dict_set object v st.1.
Proof.
  intros (object & sels & trailing & Hm & Hnew & _)%insert_field_inr.
  apply dpath_ref_new_inr in Hnew as (v' & Hnew & ->).
  simpl in Hnew. unfold mbind, Exc_bind in Hnew.
  destruct (ref_new _ sels _) as [?|v]; [done|].
  injection Hnew as <-. by exists object, sels, trailing, v.
Qed.

Lemma insert_fields_top_keys (post : QueryDict) (ks : list string)
    (st st' : dict * list path) :
  foldE (insert_field (H := dpath_ref) post) ks st = inr st' →
  NoDup st.1.*1 →
  NoDup st'.1.*1
  ∧ ∀ name, name ∈ st'.1.*1
            ↔ name ∈ st.1.*1
              ∨ ∃ k sels trailing,
                  k ∈ ks ∧ field_name_match k = Some (name, sels, trailing).
Proof.
  revert st. induction ks as [|k ks IH]; intros st; simpl.
  - intros [= <-] Hnd. split; [done|]. intros name. split; [by left|].
    intros [?|(k & ? & ? & ?%elem_of_nil & _)]; done.
  - destruct (insert_field post k st) as [?|st1] eqn:Hins; [done|].
    intros Hfold Hnd.
    apply insert_field_top_keys in Hins as (object & sels & tr & v & Hm & Hst1).
    destruct (IH st1 Hfold) as [Hnd' Hkeys].
    { rewrite Hst1. by apply dict_set_NoDup. }
    split; [done|]. intros name. rewrite Hkeys, Hst1, dict_set_keys. split.
    + intros [[->|?]|(k' & sels' & tr' & Hk' & Hm')].
      * right. exists k, sels, tr. split; [left|done].
      * by left.
      * right. exists k', sels', tr'. split; [by right|done].
    + intros [?|(k' & sels' & tr' & [->|Hk']%elem_of_cons & Hm')].
      * left. by right.
      * left. left. congruence.
      * right. eauto.
Qed.

(** On the reference model of the library, the keys of the dictionary
    that [unpack_post] returns are the object names of the submitted field
    names, each once: the conversion to arrays works below the top level
    and leaves the keys alone. *)
Theorem unpack_post_top_level_keys
    (hash : path → nat) (post : QueryDict) (result : dict) :
  unpack_post (H := dpath_ref) hash post = inr result →
  NoDup result.*1
  ∧ ∀ name, name ∈ result.*1
            ↔ ∃ k sels trailing,
                k ∈ QueryDict_keys post
                ∧ field_name_match k = Some (name, sels, trailing).
Proof.
  unfold unpack_post, mbind, Exc_bind.
  destruct (foldE (insert_field post) (QueryDict_keys post) ([], []))
    as [?|st] eqn:Hins; [done|].
  intros Hconv.
  destruct (insert_fields_top_keys _ _ _ _ Hins) as [Hnd Hkeys];
    [constructor|].
  apply convert_loop_top_keys in Hconv as ->.
  - split; [done|]. intros name. rewrite Hkeys. split; [|by right].
    intros [?%elem_of_nil|?]; done.
  - intros q Hq. unfold set_iter in Hq.
    rewrite merge_sort_Permutation in Hq.
    apply (proj1 (insert_fields_marks _ _ _ _ q Hins)) in Hq
      as [?%elem_of_nil|(k & _ & Hk)]; [done|].
    by apply marks_of_nonempty in Hk.
Qed.

Lemma unpack_post_top_level_keys_witness :
  NoDup [("_task_id", VStr "2"); ("_task_type", VStr "app.ReadRow");
         ("row", VList [VDict [("name", VStr "Anna")];
                        VDict [("name", VStr "Jan")]])].*1
  ∧ ∀ name,
      name ∈ [("_task_id", VStr "2"); ("_task_type", VStr "app.ReadRow");
              ("row", VList [VDict [("name", VStr "Anna")];
                             VDict [("name", VStr "Jan")]])].*1
      ↔ ∃ k sels trailing,
          k ∈ QueryDict_keys demo_post
          ∧ field_name_match k = Some (name, sels, trailing).
Proof.
  apply (unpack_post_top_level_keys (λ _, 0%nat) demo_post). reflexivity.
Defined.

(** ** [int] and [str] on the indices *)

Lemma is_digit_not_space (c : ascii) : is_digit c = true → is_space c = false.
Proof.
  unfold is_digit, is_space.
  rewrite andb_true_iff, orb_false_iff, andb_false_iff, !Nat.leb_le,
    !Nat.leb_gt, Nat.eqb_neq. lia.
Qed.

Lemma drop_spaces_digits (cs : list ascii) :
  Forall (λ c, is_digit c = true) cs → drop_spaces cs = cs.
Proof.
  destruct 1 as [|c cs Hc _]; simpl; [done|].
  by rewrite (is_digit_not_space c Hc).
Qed.

Lemma strip_digits (cs : list ascii) :
  Forall (λ c, is_digit c = true) cs → strip cs = cs.
Proof.
  intros Hcs. unfold strip.
  rewrite (drop_spaces_digits cs Hcs), drop_spaces_digits.
  - apply reverse_involutive.
  - by apply Forall_reverse.
Qed.

Lemma string_of_uint_digits (d : Decimal.uint) :
  Forall (λ c, is_digit c = true)
    (list_ascii_of_string (NilEmpty.string_of_uint d)).
Proof. induction d; simpl; constructor; done. Qed.

Lemma int_digits_acc (d : Decimal.uint) (p : positive) :
  int_digits (Z.pos p) true (list_ascii_of_string (NilEmpty.string_of_uint d))
  = Some (Z.pos (Pos.of_uint_acc d p)).
Proof.
  revert p. induction d as [|d IH|d IH|d IH|d IH|d IH|d IH|d IH|d IH|d IH|d IH];
    intros p; [done|..];
    cbn [NilEmpty.string_of_uint list_ascii_of_string int_digits];
    (match goal with
     | |- context [is_digit ?c] =>
         change (is_digit c) with true; cbn iota;
         let v := eval vm_compute in (digit_value c) in
         change (digit_value c) with v
     end);
    cbn [Pos.of_uint_acc]; rewrite <-IH; f_equal; lia.
Qed.

Lemma int_digits_zero (d : Decimal.uint) (b : bool) :
  d ≠ Decimal.Nil ∨ b = true →
  int_digits 0 b (list_ascii_of_string (NilEmpty.string_of_uint d))
  = Some (Z.of_N (Pos.of_uint d)).
Proof.
  revert b. induction d as [|d IH|d IH|d IH|d IH|d IH|d IH|d IH|d IH|d IH|d IH];
    intros b Hb.
  - destruct Hb as [? | ->]; done.
  - cbn [NilEmpty.string_of_uint list_ascii_of_string int_digits].
    change (is_digit "0") with true. cbn iota.
    change (10 * 0 + digit_value "0") with 0. apply IH. by right.
  - apply (int_digits_acc d 1).
  - apply (int_digits_acc d 2).
  - apply (int_digits_acc d 3).
  - apply (int_digits_acc d 4).
  - apply (int_digits_acc d 5).
  - apply (int_digits_acc d 6).
  - apply (int_digits_acc d 7).
  - apply (int_digits_acc d 8).
  - apply (int_digits_acc d 9).
Qed.

Lemma py_str_nonneg (z : Z) :
  0 ≤ z →
  ∃ d, d ≠ Decimal.Nil ∧ py_str z = NilEmpty.string_of_uint d
       ∧ Z.of_N (Pos.of_uint d) = z.
Proof.
  intros Hz. unfold py_str. destruct z as [|p|p]; [| |lia].
  - by exists (Decimal.D0 Decimal.Nil).
  - exists (Pos.to_uint p). pose proof (DecimalPos.Unsigned.to_uint_nonnil p).
    split_and!; [done| |by rewrite DecimalPos.Unsigned.of_to].
    simpl. by destruct (Pos.to_uint p).
Qed.

Lemma py_str_digits (z : Z) :
  0 ≤ z →
  py_str z ≠ ""
  ∧ Forall (λ c, is_digit c = true) (list_ascii_of_string (py_str z)).
Proof.
  intros (d & Hd & -> & _)%py_str_nonneg. split.
  - by destruct d.
  - apply string_of_uint_digits.
Qed.

Lemma py_int_py_str (z : Z) : 0 ≤ z → py_int (py_str z) = inr z.
Proof.
  intros Hz. destruct (py_str_digits z Hz) as [Hne Hdig].
  destruct (py_str_nonneg z Hz) as (d & Hd & Hstr & Hval).
  unfold py_int. rewrite (strip_digits _ Hdig).
  assert (Hparse : int_digits 0 false (list_ascii_of_string (py_str z))
                   = Some z).
  { rewrite Hstr, int_digits_zero by (by left). by rewrite Hval. }
  destruct (list_ascii_of_string (py_str z)) as [|c cs] eqn:Hcs.
  { destruct (py_str z); done. }
  apply Forall_cons in Hdig as [Hc _].
  rewrite !bool_decide_eq_false_2.
  - by rewrite Hparse.
  - intros ->. done.
  - intros ->. done.
Qed.

(** ** The normalizer on the reference model: an array of scalars *)

Lemma filter_all {A} (P : A → Prop) `{∀ x, Decision (P x)} (l : list A) :
  Forall P l → filter P l = l.
Proof.
  induction 1 as [|x l Hx _ IH]; [done|].
  by rewrite filter_cons_True, IH.
Qed.

Lemma QueryDict_keys_NoDup (post : QueryDict) :
  NoDup post.*1 → QueryDict_keys post = post.*1.
Proof.
  induction post as [|[k v] post IH]; simpl; [done|].
  rewrite NoDup_cons. intros [Hk Hnd]. rewrite IH by done. f_equal.
  apply filter_all, Forall_forall. intros k' Hk' ->. done.
Qed.

Lemma getlist_NoDup (post : QueryDict) (k v : string) :
  NoDup post.*1 → (k, v) ∈ post → getlist post k = [v].
Proof.
  unfold getlist. induction post as [|[k' v'] post IH]; simpl.
  - by intros _ ?%elem_of_nil.
  - rewrite NoDup_cons. intros [Hk' Hnd] [[= -> ->]|Hin]%elem_of_cons.
    + rewrite filter_cons_True by done. simpl. f_equal.
      rewrite filter_none; [done|]. apply Forall_forall.
      intros [k0 v0] Hin Heq. simpl in Heq. subst k0.
      apply Hk'. apply list_elem_of_fmap. by exists (k', v0).
    + rewrite filter_cons_False; [by apply IH|].
      simpl. intros ->. apply Hk'. apply list_elem_of_fmap. by exists (k, v).
Qed.

Lemma dict_set_fresh {V} (k : string) (v : V) (d : list (string * V)) :
  k ∉ d.*1 → dict_set k v d = d ++ [(k, v)].
Proof.
  induction d as [|[k' v'] d IH]; simpl; [done|].
  rewrite not_elem_of_cons. intros [Hne Hk].
  destruct (decide (k' = k)); [done|]. by rewrite IH.
Qed.

Lemma dict_get_NoDup {V} (k : string) (v : V) (d : list (string * V)) :
  NoDup d.*1 → (k, v) ∈ d → dict_get k d = Some v.
Proof.
  induction d as [|[k' v'] d IH]; simpl.
  - by intros _ ?%elem_of_nil.
  - rewrite NoDup_cons. intros [Hk' Hnd] [[= -> ->]|Hin]%elem_of_cons.
    + by destruct (decide (k' = k')).
    + destruct (decide (k' = k)) as [->|]; [|by apply IH].
      destruct Hk'. apply list_elem_of_fmap. by exists (k, v).
Qed.

Lemma is_name_py_str (z : Z) : 0 ≤ z → is_name (py_str z).
Proof.
  intros [Hne Hdig]%py_str_digits. split; [done|].
  apply forallb_forall. intros c Hc%list_elem_of_In.
  rewrite Forall_forall in Hdig. unfold is_name_char, is_word.
  by rewrite (Hdig c Hc).
Qed.

Lemma starts_with_digit_py_str (z : Z) :
  0 ≤ z → starts_with_digit (py_str z) = true.
Proof.
  intros [Hne Hdig]%py_str_digits. destruct (py_str z) as [|c s]; [done|].
  simpl in *. by apply Forall_cons in Hdig as [? _].
Qed.

Lemma py_str_inj (a b : Z) : 0 ≤ a → 0 ≤ b → py_str a = py_str b → a = b.
Proof.
  intros Ha Hb Heq. apply py_int_py_str in Ha, Hb.
  rewrite Heq in Ha. congruence.
Qed.

Lemma field_name_match_indexed (name : string) (z : Z) :
  is_name name → 0 ≤ z →
  field_name_match (render name [py_str z] false)
  = Some (name, [py_str z], false).
Proof.
  intros Hname Hz. apply field_name_match_Some. split_and!; [done| |].
  - constructor; [by apply is_name_py_str|constructor].
  - exists "". split; [by left|]. by rewrite string_app_nil_r.
Qed.

Lemma mapE_py_int_py_str (zs : list Z) :
  Forall (λ z, 0 ≤ z) zs → mapE py_int (py_str <$> zs) = inr zs.
Proof.
  induction 1 as [|z zs Hz _ IH]; [done|].
  rewrite fmap_cons. cbn [mapE]. by rewrite py_int_py_str, IH.
Qed.

Lemma mapE_fmap {A B} (f : A → Exc B) (g : A → B) (l : list A) :
  (∀ x, x ∈ l → f x = inr (g x)) → mapE f l = inr (g <$> l).
Proof.
  induction l as [|x l IH]; intros Hf; simpl; [done|].
  rewrite (Hf x) by left. rewrite IH; [done|]. intros y Hy. apply Hf. by right.
Qed.

Lemma insert_indexed_field (post : QueryDict) (name : string) (z : Z)
    (v : string) (r : dict) (inner : dict) (marks : list path) :
  is_name name → 0 ≤ z →
  getlist post (render name [py_str z] false) = [v] →
  (r = [] ∧ inner = [] ∧ marks = []
   ∨ r = [(name, VDict inner)] ∧ marks = [[name]]) →
  insert_field (H := dpath_ref) post (render name [py_str z] false) (r, marks)
  = inr ([(name, VDict (dict_set (py_str z) (VStr v) inner))], [[name]]).
Proof.
  intros Hname Hz Hget Hst. unfold insert_field.
  rewrite (field_name_match_indexed name z Hname Hz).
  cbn [walk_selectors fst snd]. rewrite (starts_with_digit_py_str z Hz).
  unfold get_list_or_value. rewrite Hget.
  unfold dpath_new, dpath_ref. cbn [app ref_new].
  destruct Hst as [(-> & -> & ->)|(-> & ->)].
  - done.
  - cbn [dict_get]. destruct (decide (name = name)); [|done].
    cbn [default]. unfold set_add.
    rewrite bool_decide_eq_true_2 by (by apply list_elem_of_singleton).
    cbn. by destruct (decide (name = name)).
Qed.

Lemma insert_indexed_fields (post : QueryDict) (name : string)
    (rest : list (Z * string)) (inner : dict) :
  is_name name →
  Forall (λ it, 0 ≤ it.1) rest →
  (∀ it, it ∈ rest → getlist post (render name [py_str it.1] false) = [it.2]) →
  NoDup (inner.*1 ++ (py_str <$> rest.*1)) →
  foldE (insert_field (H := dpath_ref) post)
    ((λ it, render name [py_str it.1] false) <$> rest)
    ([(name, VDict inner)], [[name]])
  = inr ([(name, VDict (inner ++ ((λ it, (py_str it.1, VStr it.2)) <$> rest)))],
         [[name]]).
Proof.
  intros Hname. revert inner.
  induction rest as [|[z v] rest IH]; intros inner Hpos Hget Hnd.
  - simpl. by rewrite app_nil_r.
  - apply Forall_cons in Hpos as [Hz Hpos]. simpl in Hz.
    rewrite fmap_cons. cbn [foldE fst snd].
    rewrite (insert_indexed_field post name z v _ inner [[name]]);
      [|done|done|apply (Hget (z, v)); left|by right].
    simpl in Hnd. apply NoDup_app in Hnd as (Hinner & Hdisj & Hrest).
    apply NoDup_cons in Hrest as [Hz' Hrest].
    rewrite dict_set_fresh.
    2:{ intros Hin. apply (Hdisj _ Hin). left. }
    rewrite IH.
    + rewrite fmap_cons. cbn [fst snd]. by rewrite <-app_assoc.
    + done.
    + intros it Hit. apply Hget. by right.
    + rewrite fmap_app. simpl. rewrite <-app_assoc. simpl.
      apply NoDup_app. split_and!; [done| |by apply NoDup_cons].
      intros k Hk Hk'. by apply (Hdisj k Hk).
Qed.

Lemma NoDup_fst_inj {A B} (l : list (A * B)) (a b : A * B) :
  NoDup l.*1 → a ∈ l → b ∈ l → a.1 = b.1 → a = b.
Proof.
  intros Hnd [i Hi]%list_elem_of_lookup_1 [j Hj]%list_elem_of_lookup_1 Heq.
  assert (i = j) as ->; [|congruence].
  apply (NoDup_lookup l.*1 i j a.1); [done| |].
  - by rewrite list_lookup_fmap, Hi.
  - by rewrite list_lookup_fmap, Hj, Heq.
Qed.

Lemma convert_indexed (name : string) (items : list (Z * value)) :
  NoDup items.*1 → Forall (λ it, 0 ≤ it.1) items →
  convert_to_array (H := dpath_ref) [name]
    [(name, VDict ((λ it, (py_str it.1, it.2)) <$> items))]
  = inr [(name,
          VList ((λ z, default VNone
                         (dict_get (py_str z)
                            ((λ it, (py_str it.1, it.2)) <$> items)))
                 <$> merge_sort Z.le items.*1))].
Proof.
  intros Hnd Hpos.
  set (inner := (λ it, (py_str it.1, it.2)) <$> items).
  assert (Hkeys : inner.*1 = py_str <$> items.*1).
  { unfold inner. rewrite <-!list_fmap_compose. done. }
  assert (Hzs : Forall (λ z, 0 ≤ z) items.*1).
  { apply Forall_fmap. eapply Forall_impl; [exact Hpos|done]. }
  unfold convert_to_array, mbind, Exc_bind.
  unfold dpath_get, dpath_set, dpath_ref. cbn [ref_get dict_get].
  destruct (decide (name = name)); [|done].
  cbn [mbind option_bind keys_of]. rewrite Hkeys, mapE_py_int_py_str by done.
  rewrite (mapE_fmap _ (λ z, default VNone (dict_get (py_str z) inner))).
  - cbn [ref_set dict_get]. destruct (decide (name = name)); [|done].
    cbn. by destruct (decide (name = name)).
  - intros z Hz. rewrite merge_sort_Permutation in Hz.
    apply list_elem_of_fmap in Hz as ([z' v] & -> & Hin).
    unfold getitem. rewrite (dict_get_NoDup (py_str z') v); [done| |].
    + rewrite Hkeys. apply NoDup_fmap_2_strong; [|done].
      intros a b Ha Hb. rewrite Forall_forall in Hzs.
      apply py_str_inj; by apply Hzs.
    + unfold inner. apply list_elem_of_fmap. by exists (z', v).
Qed.

Lemma fmap_ext_elem_of {A B} (f g : A → B) (l : list A) :
  (∀ x, x ∈ l → f x = g x) → f <$> l = g <$> l.
Proof.
  induction l as [|x l IH]; intros Hfg; [done|].
  rewrite !fmap_cons, (Hfg x) by left. f_equal. apply IH.
  intros y Hy. apply Hfg. by right.
Qed.

Lemma insert_all_indexed (name : string) (items : list (Z * string)) :
  is_name name → items ≠ [] → NoDup items.*1 →
  Forall (λ it, 0 ≤ it.1) items →
  foldE (insert_field (H := dpath_ref) (indexed_fields name items))
    (QueryDict_keys (indexed_fields name items)) ([], [])
  = inr ([(name, VDict ((λ it, (py_str it.1, VStr it.2)) <$> items))],
         [[name]]).
Proof.
  intros Hname Hne Hnd Hpos.
  set (post := indexed_fields name items).
  assert (Hzs : Forall (λ z, 0 ≤ z) items.*1).
  { apply Forall_fmap. eapply Forall_impl; [exact Hpos|done]. }
  assert (Hstr : NoDup (py_str <$> items.*1)).
  { apply NoDup_fmap_2_strong; [|done].
    intros a b Ha Hb. rewrite Forall_forall in Hzs.
    apply py_str_inj; by apply Hzs. }
  assert (Hpost : post.*1 = (λ it, render name [py_str it.1] false) <$> items).
  { unfold post, indexed_fields. by rewrite <-list_fmap_compose. }
  assert (Hkeys : NoDup post.*1).
  { rewrite Hpost. apply NoDup_fmap_2_strong; [|by apply NoDup_fmap_1 in Hnd].
    intros a b Ha Hb Heq. apply (NoDup_fst_inj items); [done..|].
    rewrite Forall_forall in Hpos.
    apply py_str_inj; [by apply Hpos|by apply Hpos|].
    pose proof (field_name_match_indexed name a.1 Hname (Hpos a Ha)) as Hma.
    pose proof (field_name_match_indexed name b.1 Hname (Hpos b Hb)) as Hmb.
    rewrite Heq, Hmb in Hma. congruence. }
  assert (Hget : ∀ it, it ∈ items →
            getlist post (render name [py_str it.1] false) = [it.2]).
  { intros it Hit. apply getlist_NoDup; [done|].
    unfold post, indexed_fields. apply list_elem_of_fmap. by exists it. }
  rewrite (QueryDict_keys_NoDup post Hkeys), Hpost.
  destruct items as [|[z0 v0] rest]; [done|].
  rewrite fmap_cons. cbn [foldE fst snd].
  apply Forall_cons in Hpos as [Hz0 Hpos]. simpl in Hz0.
  rewrite (insert_indexed_field post name z0 v0 [] [] []);
    [|done|done|apply (Hget (z0, v0)); left|by left].
  cbn [dict_set]. rewrite insert_indexed_fields; [done|done|done| |done].
  intros it Hit. apply Hget. by right.
Qed.

(** On the reference model of the library: the fields [name[i]] of an
    array of scalars, submitted in any order, with indices that are
    distinct and need not be consecutive, are returned as one key holding
    the list of the values in the ascending order of their indices, an
    element per field and nothing for the indices left out. *)
Theorem unpack_post_array_of_scalars
    (hash : path → nat) (name : string) (items : list (Z * string)) :
  is_name name → items ≠ [] → NoDup items.*1 →
  Forall (λ it, 0 ≤ it.1) items →
  ∃ sorted,
    sorted ≡ₚ items
    ∧ StronglySorted (λ a b, a.1 ≤ b.1) sorted
    ∧ unpack_post (H := dpath_ref) hash (indexed_fields name items)
      = inr [(name, VList ((λ it, VStr it.2) <$> sorted))].
Proof.
  intros Hname Hne Hnd Hpos.
  set (inner := (λ it, (py_str it.1, VStr it.2)) <$> items).
  set (val := λ z, match dict_get (py_str z) inner with
                   | Some (VStr v) => v
                   | _ => ""
                   end).
  assert (Hzs : Forall (λ z, 0 ≤ z) items.*1).
  { apply Forall_fmap. eapply Forall_impl; [exact Hpos|done]. }
  assert (Hkeys : inner.*1 = py_str <$> items.*1).
  { unfold inner. by rewrite <-!list_fmap_compose. }
  assert (Hinner : ∀ it, it ∈ items →
            dict_get (py_str it.1) inner = Some (VStr it.2)).
  { intros it Hit. apply dict_get_NoDup.
    - rewrite Hkeys. apply NoDup_fmap_2_strong; [|done].
      intros a b Ha Hb. rewrite Forall_forall in Hzs.
      apply py_str_inj; by apply Hzs.
    - unfold inner. apply list_elem_of_fmap. by exists it. }
  exists ((λ z, (z, val z)) <$> merge_sort Z.le items.*1). split_and!.
  - rewrite merge_sort_Permutation, <-list_fmap_compose.
    rewrite <-(list_fmap_id items) at 2.
    rewrite (fmap_ext_elem_of _ Datatypes.id items); [done|].
    intros [z v] Hit. pose proof (Hinner (z, v) Hit) as Hv. simpl in Hv.
    simpl. unfold val. by rewrite Hv.
  - apply (StronglySorted_fmap (λ z, (z, val z)) Z.le); [done|].
    apply (StronglySorted_merge_sort _).
  - unfold unpack_post, mbind, Exc_bind.
    rewrite insert_all_indexed by done. cbn [fst snd].
    change (set_iter hash [[name]]) with [[name]]. cbn [foldE].
    assert (Hitems : inner = (λ it, (py_str it.1, it.2))
                               <$> ((λ it, (it.1, VStr it.2)) <$> items)).
    { unfold inner. by rewrite <-list_fmap_compose. }
    fold inner. rewrite Hitems, convert_indexed.
    2:{ by rewrite <-list_fmap_compose. }
    2:{ apply Forall_fmap. eapply Forall_impl; [exact Hpos|done]. }
    rewrite <-Hitems, <-!list_fmap_compose. do 4 f_equal.
    change (fst ∘ (λ it : Z * string, (it.1, VStr it.2)) <$> items)
      with (items.*1).
    apply fmap_ext_elem_of. intros z Hz. rewrite merge_sort_Permutation in Hz.
    apply list_elem_of_fmap in Hz as ([z' v] & -> & Hin).
    pose proof (Hinner (z', v) Hin) as Hv. simpl in Hv.
    simpl. unfold val. by rewrite Hv.
Qed.

Lemma unpack_post_array_of_scalars_witness :
  ∃ sorted,
    sorted ≡ₚ [(10, "k"); (2, "c"); (0, "a")]
    ∧ StronglySorted (λ a b, a.1 ≤ b.1) sorted
    ∧ unpack_post (H := dpath_ref) (λ _, 0%nat)
        (indexed_fields "tag" [(10, "k"); (2, "c"); (0, "a")])
      = inr [("tag", VList ((λ it, VStr it.2) <$> sorted))].
Proof.
  apply (unpack_post_array_of_scalars (λ _, 0%nat) "tag"
           [(10, "k"); (2, "c"); (0, "a")]).
  - split; [done|reflexivity].
  - done.
  - apply (bool_decide_unpack _). vm_compute. exact I.
  - repeat constructor; simpl; lia.
Defined.

(** ** The normalizer on the reference model: an array of records *)

Lemma dict_get_app_last {V} (k : string) (v : V) (d : list (string * V)) :
  k ∉ d.*1 → dict_get k (d ++ [(k, v)]) = Some v.
Proof.
  induction d as [|[k' v'] d IH]; simpl.
  - intros _. by destruct (decide (k = k)).
  - rewrite not_elem_of_cons. intros [Hne Hk].
    destruct (decide (k' = k)); [done|]. by apply IH.
Qed.

Lemma dict_set_app_last {V} (k : string) (v x : V) (d : list (string * V)) :
  k ∉ d.*1 → dict_set k x (d ++ [(k, v)]) = d ++ [(k, x)].
Proof.
  induction d as [|[k' v'] d IH]; simpl.
  - intros _. by destruct (decide (k = k)).
  - rewrite not_elem_of_cons. intros [Hne Hk].
    destruct (decide (k' = k)); [done|]. by rewrite IH.
Qed.

Lemma fmap_bind_list {A B C} (f : B → C) (g : A → list B) (l : list A) :
  f <$> (l ≫= g) = l ≫= λ x, f <$> g x.
Proof.
  induction l as [|x l IH]; [done|].
  by rewrite !bind_cons, fmap_app, IH.
Qed.

Lemma field_name_match_record (name : string) (z : Z) (f : string) :
  is_name name → 0 ≤ z → is_name f →
  field_name_match (render name [py_str z; f] false)
  = Some (name, [py_str z; f], false).
Proof.
  intros Hname Hz Hf. apply field_name_match_Some. split_and!; [done| |].
  - apply Forall_cons. split; [by apply is_name_py_str|].
    apply Forall_cons. split; [done|constructor].
  - exists "". split; [by left|]. by rewrite string_app_nil_r.
Qed.

Lemma insert_record_field (post : QueryDict) (name : string) (z : Z)
    (f v : string) (r O cur : dict) (marks : list path) :
  is_name name → 0 ≤ z → is_name f → starts_with_digit f = false →
  getlist post (render name [py_str z; f] false) = [v] →
  (r = [] ∧ O = [] ∧ marks = []
   ∨ r = [(name, VDict O)] ∧ marks = [[name]]) →
  default (VDict []) (dict_get (py_str z) O) = VDict cur →
  insert_field (H := dpath_ref) post (render name [py_str z; f] false)
    (r, marks)
  = inr ([(name, VDict (dict_set (py_str z)
                          (VDict (dict_set f (VStr v) cur)) O))],
         [[name]]).
Proof.
  intros Hname Hz Hf Hnd Hget Hst Hcur. unfold insert_field.
  rewrite (field_name_match_record name z f Hname Hz Hf).
  cbn [walk_selectors fst snd].
  rewrite (starts_with_digit_py_str z Hz), Hnd.
  unfold get_list_or_value. rewrite Hget.
  unfold dpath_new, dpath_ref. cbn [app ref_new].
  assert (Houter : default (VDict []) (dict_get name r) = VDict O).
  { destruct Hst as [(-> & -> & _)|(-> & _)]; [done|].
    cbn. by destruct (decide (name = name)). }
  assert (Hmarks : set_add [name] marks = [[name]]).
  { destruct Hst as [(_ & _ & ->)|(_ & ->)]; [done|].
    unfold set_add.
    by rewrite bool_decide_eq_true_2 by (by apply list_elem_of_singleton). }
  rewrite Houter, Hmarks. cbn [ref_new]. rewrite Hcur. cbn [ref_new].
  cbn [mbind Exc_bind mret Exc_ret fmap Exc_fmap dict_of].
  destruct Hst as [(-> & _ & _)|(-> & _)]; [done|].
  cbn [dict_set]. by destruct (decide (name = name)).
Qed.

Lemma insert_record_fields (post : QueryDict) (name : string) (z : Z)
    (rest : list (string * string)) (outer cur : dict) :
  is_name name → 0 ≤ z →
  Forall (λ fv, is_name fv.1 ∧ starts_with_digit fv.1 = false) rest →
  (∀ fv, fv ∈ rest →
     getlist post (render name [py_str z; fv.1] false) = [fv.2]) →
  py_str z ∉ outer.*1 →
  NoDup (cur.*1 ++ rest.*1) →
  foldE (insert_field (H := dpath_ref) post)
    ((λ fv, render name [py_str z; fv.1] false) <$> rest)
    ([(name, VDict (outer ++ [(py_str z, VDict cur)]))], [[name]])
  = inr ([(name,
           VDict (outer
                  ++ [(py_str z,
                       VDict (cur ++ ((λ fv, (fv.1, VStr fv.2)) <$> rest)))]))],
         [[name]]).
Proof.
  intros Hname Hz. revert cur.
  induction rest as [|[f v] rest IH]; intros cur Hok Hget Hfresh Hnd.
  - simpl. by rewrite app_nil_r.
  - apply Forall_cons in Hok as [[Hf Hdig] Hok]. simpl in Hf, Hdig.
    rewrite fmap_cons. cbn [foldE fst snd].
    rewrite (insert_record_field post name z f v _
               (outer ++ [(py_str z, VDict cur)]) cur [[name]]);
      [|done|done|done|done|apply (Hget (f, v)); left|by right|
       by rewrite dict_get_app_last].
    simpl in Hnd. apply NoDup_app in Hnd as (Hcur & Hdisj & Hrest).
    apply NoDup_cons in Hrest as [Hf' Hrest].
    rewrite dict_set_app_last by done. rewrite dict_set_fresh.
    2:{ intros Hin. apply (Hdisj _ Hin). left. }
    rewrite IH.
    + rewrite fmap_cons. cbn [fst snd]. by rewrite <-app_assoc.
    + done.
    + intros fv Hfv. apply Hget. by right.
    + done.
    + rewrite fmap_app. simpl. rewrite <-app_assoc. simpl.
      apply NoDup_app. split_and!; [done| |by apply NoDup_cons].
      intros k Hk Hk'. by apply (Hdisj k Hk).
Qed.

Lemma insert_record (post : QueryDict) (name : string)
    (rec : Z * list (string * string)) (r O : dict) (marks : list path) :
  is_name name → record_ok rec →
  (∀ fv, fv ∈ rec.2 →
     getlist post (render name [py_str rec.1; fv.1] false) = [fv.2]) →
  (r = [] ∧ O = [] ∧ marks = []
   ∨ r = [(name, VDict O)] ∧ marks = [[name]]) →
  py_str rec.1 ∉ O.*1 →
  foldE (insert_field (H := dpath_ref) post)
    ((λ fv, render name [py_str rec.1; fv.1] false) <$> rec.2) (r, marks)
  = inr ([(name,
           VDict (O ++ [(py_str rec.1,
                         VDict ((λ fv, (fv.1, VStr fv.2)) <$> rec.2))]))],
         [[name]]).
Proof.
  destruct rec as [z fields]. intros Hname (Hz & Hne & Hnd & Hok) Hget Hst Hfresh.
  simpl in *. destruct fields as [|[f v] rest]; [done|].
  apply Forall_cons in Hok as [[Hf Hdig] Hok]. simpl in Hf, Hdig.
  rewrite fmap_cons. cbn [foldE fst snd].
  rewrite (insert_record_field post name z f v r O [] marks);
    [|done|done|done|done|apply (Hget (f, v)); left|done|
     by rewrite (proj2 (dict_get_None _ _) Hfresh)].
  cbn [dict_set]. rewrite dict_set_fresh by done.
  rewrite insert_record_fields; [done|done|done|done| |done|done].
  intros fv Hfv. apply Hget. by right.
Qed.

Lemma insert_records (post : QueryDict) (name : string)
    (records : list (Z * list (string * string))) (O : dict) :
  is_name name → Forall record_ok records →
  (∀ rec fv, rec ∈ records → fv ∈ rec.2 →
     getlist post (render name [py_str rec.1; fv.1] false) = [fv.2]) →
  NoDup (O.*1 ++ (py_str <$> records.*1)) →
  foldE (insert_field (H := dpath_ref) post)
    (records ≫= λ rec,
       (λ fv, render name [py_str rec.1; fv.1] false) <$> rec.2)
    ([(name, VDict O)], [[name]])
  = inr ([(name,
           VDict (O ++ ((λ rec, (py_str rec.1,
                                  VDict ((λ fv, (fv.1, VStr fv.2)) <$> rec.2)))
                        <$> records)))],
         [[name]]).
Proof.
  intros Hname. revert O.
  induction records as [|rec records IH]; intros O Hok Hget Hnd.
  - simpl. by rewrite app_nil_r.
  - apply Forall_cons in Hok as [Hrec Hok].
    simpl in Hnd. apply NoDup_app in Hnd as (HO & Hdisj & Hrest).
    apply NoDup_cons in Hrest as [Hfresh Hrest].
    rewrite bind_cons, foldE_app.
    rewrite (insert_record post name rec _ O [[name]]);
      [|done|done|intros fv Hfv; apply Hget; [left|done]|by right|].
    2:{ intros Hin. apply (Hdisj _ Hin). left. }
    rewrite IH.
    + rewrite fmap_cons. by rewrite <-app_assoc.
    + done.
    + intros rec' fv Hrec' Hfv. apply Hget; [by right|done].
    + rewrite fmap_app. simpl. rewrite <-app_assoc. simpl.
      apply NoDup_app. split_and!; [done| |by apply NoDup_cons].
      intros k Hk Hk'. by apply (Hdisj k Hk).
Qed.

#[global] Instance index_le_total {A} : Total (@index_le A).
Proof. intros a b. unfold index_le. lia. Qed.

#[global] Instance index_le_trans {A} : Transitive (@index_le A).
Proof. intros a b c. unfold index_le. lia. Qed.

Lemma merge_sort_indices {A} (items : list (Z * A)) :
  merge_sort Z.le items.*1 = (merge_sort index_le items).*1.
Proof.
  apply (StronglySorted_unique Z.le).
  - apply (StronglySorted_merge_sort _).
  - apply (StronglySorted_fmap fst index_le); [done|].
    apply (StronglySorted_merge_sort _).
  - by rewrite !merge_sort_Permutation.
Qed.

Lemma record_fields_keys (name : string)
    (records : list (Z * list (string * string))) :
  (record_fields name records).*1
  = records ≫= λ rec,
      (λ fv, render name [py_str rec.1; fv.1] false) <$> rec.2.
Proof.
  unfold record_fields. induction records as [|rec records IH]; [done|].
  by rewrite !bind_cons, fmap_app, IH, <-list_fmap_compose.
Qed.

Lemma record_fields_NoDup (name : string)
    (records : list (Z * list (string * string))) :
  is_name name → NoDup records.*1 → Forall record_ok records →
  NoDup (record_fields name records).*1.
Proof.
  intros Hname Hnd Hok. rewrite record_fields_keys.
  rewrite Forall_forall in Hok. apply NoDup_bind.
  - intros rec1 rec2 k Hrec1 Hrec2
      (fv1 & -> & Hfv1)%list_elem_of_fmap (fv2 & Heq & Hfv2)%list_elem_of_fmap.
    destruct (Hok rec1 Hrec1) as (Hz1 & _ & _ & Hf1).
    destruct (Hok rec2 Hrec2) as (Hz2 & _ & _ & Hf2).
    rewrite Forall_forall in Hf1, Hf2.
    pose proof (field_name_match_record name rec1.1 fv1.1 Hname Hz1
                  (proj1 (Hf1 fv1 Hfv1))) as Hm1.
    pose proof (field_name_match_record name rec2.1 fv2.1 Hname Hz2
                  (proj1 (Hf2 fv2 Hfv2))) as Hm2.
    rewrite Heq, Hm2 in Hm1. injection Hm1 as Hs _.
    apply (NoDup_fst_inj records); [done..|]. by apply py_str_inj.
  - intros rec Hrec. destruct (Hok rec Hrec) as (Hz & _ & Hfields & Hf).
    rewrite Forall_forall in Hf.
    apply NoDup_fmap_2_strong; [|by apply NoDup_fmap_1 in Hfields].
    intros fv1 fv2 Hfv1 Hfv2 Heq.
    pose proof (field_name_match_record name rec.1 fv1.1 Hname Hz
                  (proj1 (Hf fv1 Hfv1))) as Hm1.
    pose proof (field_name_match_record name rec.1 fv2.1 Hname Hz
                  (proj1 (Hf fv2 Hfv2))) as Hm2.
    rewrite Heq, Hm2 in Hm1. injection Hm1 as Hs.
    by apply (NoDup_fst_inj rec.2).
  - by apply NoDup_fmap_1 in Hnd.
Qed.

(** On the reference model of the library: the fields [name[i][fld]] of
    an array of records, the records in any order and their indices
    distinct but not necessarily consecutive, are returned as one key
    holding the list of the records in the ascending order of their
    indices, each record a dictionary of its fields in the order they were
    submitted. *)
Theorem unpack_post_array_of_records
    (hash : path → nat) (name : string)
    (records : list (Z * list (string * string))) :
  is_name name → records ≠ [] → NoDup records.*1 →
  Forall record_ok records →
  unpack_post (H := dpath_ref) hash (record_fields name records)
  = inr [(name,
          VList ((λ rec, VDict ((λ fv, (fv.1, VStr fv.2)) <$> rec.2))
                 <$> merge_sort index_le records))].
Proof.
  intros Hname Hne Hnd Hok.
  set (post := record_fields name records).
  set (entry := λ rec : Z * list (string * string),
                  VDict ((λ fv, (fv.1, VStr fv.2)) <$> rec.2)).
  pose proof (record_fields_NoDup name records Hname Hnd Hok) as Hkeys.
  fold post in Hkeys.
  assert (Hzs : Forall (λ z, 0 ≤ z) records.*1).
  { apply Forall_fmap. eapply Forall_impl; [exact Hok|]. by intros rec [? _]. }
  assert (Hstr : NoDup (py_str <$> records.*1)).
  { apply NoDup_fmap_2_strong; [|done].
    intros a b Ha Hb. rewrite Forall_forall in Hzs.
    apply py_str_inj; by apply Hzs. }
  assert (Hget : ∀ rec fv, rec ∈ records → fv ∈ rec.2 →
            getlist post (render name [py_str rec.1; fv.1] false) = [fv.2]).
  { intros rec fv Hrec Hfv. apply getlist_NoDup; [done|].
    unfold post, record_fields. apply list_elem_of_bind. exists rec.
    split; [|done]. apply list_elem_of_fmap. by exists fv. }
  assert (Hloop : foldE (insert_field (H := dpath_ref) post)
                    (QueryDict_keys post) ([], [])
                  = inr ([(name, VDict ((λ rec, (py_str rec.1, entry rec))
                                        <$> records))], [[name]])).
  { rewrite (QueryDict_keys_NoDup post Hkeys).
    unfold post. rewrite record_fields_keys. fold post.
    destruct records as [|rec0 recs]; [done|].
    apply Forall_cons in Hok as [Hrec0 Hrecs].
    rewrite bind_cons, foldE_app.
    rewrite (insert_record post name rec0 [] [] []);
      [|done|done|intros fv Hfv; apply Hget; [left|done]|by left|
       apply not_elem_of_nil].
    rewrite insert_records; [done|done|done| |done].
    intros rec fv Hrec Hfv. apply Hget; [by right|done]. }
  unfold unpack_post, mbind, Exc_bind. rewrite Hloop. cbn [fst snd].
  change (set_iter hash [[name]]) with [[name]]. cbn [foldE].
  set (items := (λ rec, (rec.1, entry rec)) <$> records).
  assert (Hitems : (λ rec, (py_str rec.1, entry rec)) <$> records
                   = (λ it, (py_str it.1, it.2)) <$> items).
  { unfold items. by rewrite <-list_fmap_compose. }
  assert (Hidx : items.*1 = records.*1).
  { unfold items. by rewrite <-list_fmap_compose. }
  rewrite Hitems, convert_indexed; [|by rewrite Hidx|].
  2:{ unfold items. apply Forall_fmap. eapply Forall_impl; [exact Hok|].
      by intros rec [? _]. }
  rewrite Hidx, merge_sort_indices, <-list_fmap_compose. do 4 f_equal.
  apply fmap_ext_elem_of. intros rec Hrec.
  rewrite merge_sort_Permutation in Hrec. simpl.
  rewrite (dict_get_NoDup (py_str rec.1) (entry rec)); [done| |].
  - rewrite <-Hitems, <-list_fmap_compose.
    by rewrite <-list_fmap_compose in Hstr.
  - rewrite <-Hitems. apply list_elem_of_fmap. by exists rec.
Qed.

Lemma unpack_post_array_of_records_witness :
  unpack_post (H := dpath_ref) (λ _, 0%nat)
    (record_fields "row"
       [(3, [("name", "Jan"); ("age", "40")]); (1, [("name", "Anna")])])
  = inr [("row",
          VList ((λ rec, VDict ((λ fv, (fv.1, VStr fv.2)) <$> rec.2))
                 <$> merge_sort index_le
                       [(3, [("name", "Jan"); ("age", "40")]);
                        (1, [("name", "Anna")])]))].
Proof.
  apply (unpack_post_array_of_records (λ _, 0%nat) "row"
           [(3, [("name", "Jan"); ("age", "40")]); (1, [("name", "Anna")])]).
  - split; [done|reflexivity].
  - done.
  - apply (bool_decide_unpack _). vm_compute. exact I.
  - assert (Hfield : ∀ f, f ≠ "" →
              forallb is_name_char (list_ascii_of_string f) = true →
              starts_with_digit f = false →
              is_name f ∧ starts_with_digit f = false)
      by (intros f ? ? ?; by split).
    apply Forall_cons. split; [|apply Forall_cons; split; [|by apply Forall_nil]].
    + split_and!; simpl; [lia|done| |].
      * apply (bool_decide_unpack _). vm_compute. exact I.
      * apply Forall_cons. split; [by apply Hfield|].
        apply Forall_cons. split; [by apply Hfield|]. by apply Forall_nil.
    + split_and!; simpl; [lia|done| |].
      * apply (bool_decide_unpack _). vm_compute. exact I.
      * apply Forall_cons. split; [by apply Hfield|]. by apply Forall_nil.
Defined.
